(** * gitcmd: a virtual filesystem over [git ls-tree]

    Shallow embedding of the Go package [gitcmd] (functions [Lstat],
    [Stat], [ReadDir], [lsTree] and [lsTreeUncached]) together with the
    parts of the Go standard library these functions call ([strings],
    [strconv], [path/filepath], [os.FileMode]) and of
    [github.com/golang/groupcache/lru]; and of the state and the event
    handlers of the React component [SavedQueryForm].

    Go strings are byte sequences: they are modelled by [string], whose
    characters are the 256 byte values.  Go's [int64] and [os.FileMode]
    ([uint32]) are modelled by [Z] with the wrap-around written out. *)

From Stdlib Require Import String Ascii List ZArith NArith Bool Lia.
From Stdlib Require Import Sorting.Mergesort Sorting.Sorted Sorting.Permutation.
Import ListNotations.

Local Open Scope string_scope.
Local Open Scope list_scope.
Local Open Scope Z_scope.

Set Implicit Arguments.

(** ** Go standard library: package [strings] / [bytes] *)

Module GoStrings.

Definition len (s : string) : Z := Z.of_nat (String.length s).

Definition byte_eqb (a b : ascii) : bool := Ascii.eqb a b.

(** [strings.IndexByte]: index of the first occurrence of [c], or -1. *)
Fixpoint IndexByte (s : string) (c : ascii) : Z :=
  match s with
  | EmptyString => -1
  | String a rest =>
      if byte_eqb a c then 0
      else let i := IndexByte rest c in if i <? 0 then -1 else i + 1
  end.

(** [strings.LastIndexByte]: index of the last occurrence of [c], or -1. *)
Fixpoint LastIndexByte (s : string) (c : ascii) : Z :=
  match s with
  | EmptyString => -1
  | String a rest =>
      let i := LastIndexByte rest c in
      if 0 <=? i then i + 1
      else if byte_eqb a c then 0 else -1
  end.

(** The slice expression [s[:n]]; [None] is the run-time panic that Go
    raises when the bound is out of range. *)
Fixpoint sliceTo (s : string) (n : nat) {struct n} : option string :=
  match n, s with
  | O, _ => Some EmptyString
  | S _, EmptyString => None
  | S n', String a rest => option_map (String a) (sliceTo rest n')
  end.

(** The slice expression [s[n:]]. *)
Fixpoint sliceFrom (s : string) (n : nat) {struct n} : option string :=
  match n, s with
  | O, _ => Some s
  | S _, EmptyString => None
  | S n', String _ rest => sliceFrom rest n'
  end.

(** [strings.Split(s, sep)] for a one-byte separator: always at least
    one element, [k] separators yield [k+1] elements. *)
Fixpoint Split (s : string) (sep : ascii) : list string :=
  match s with
  | EmptyString => [EmptyString]
  | String a rest =>
      if byte_eqb a sep then EmptyString :: Split rest sep
      else match Split rest sep with
           | [] => [String a EmptyString]
           | hd :: tl => String a hd :: tl
           end
  end.

(** [strings.SplitN(s, sep, n)] for a one-byte separator and [n >= 0]:
    at most [n] elements, the last one being the unsplit remainder. *)
Fixpoint SplitN (s : string) (sep : ascii) (n : nat) {struct n} : list string :=
  match n with
  | O => []
  | S O => [s]
  | S n' =>
      (fix go (t : string) : list string :=
         match t with
         | EmptyString => [EmptyString]
         | String a rest =>
             if byte_eqb a sep then EmptyString :: SplitN rest sep n'
             else match go rest with
                  | [] => [String a EmptyString]
                  | hd :: tl => String a hd :: tl
                  end
         end) s
  end.

(** [strings.HasPrefix] and [strings.TrimPrefix]. *)
Definition HasPrefix (s pre : string) : bool := String.prefix pre s.

Definition TrimPrefix (s pre : string) : string :=
  if HasPrefix s pre
  then String.substring (String.length pre) (String.length s - String.length pre) s
  else s.

(** [bytes.Contains]. *)
Fixpoint Contains (s sub : string) : bool :=
  String.prefix sub s
  || match s with
     | EmptyString => false
     | String _ rest => Contains rest sub
     end.

Definition code (c : ascii) : Z := Z.of_N (N_of_ascii c).

(** The one-byte white space of [unicode.IsSpace]:
    tab, newline, vertical tab, form feed, carriage return, space. *)
Definition isAsciiSpace (c : ascii) : bool :=
  let n := code c in ((9 <=? n) && (n <=? 13)) || (n =? 32).

(** White space runes of more than one byte, by their UTF-8 encoding:
    U+0085, U+00A0 (two bytes); U+1680, U+2000..U+200A, U+2028, U+2029,
    U+202F, U+205F, U+3000 (three bytes). *)
Definition isSpace2 (a b : ascii) : bool :=
  (code a =? 194) && ((code b =? 133) || (code b =? 160)).

Definition isSpace3 (a b c : ascii) : bool :=
  ((code a =? 225) && (code b =? 154) && (code c =? 128))
  || ((code a =? 226) && (code b =? 128)
      && (((128 <=? code c) && (code c <=? 138))
          || (code c =? 168) || (code c =? 169) || (code c =? 175)))
  || ((code a =? 226) && (code b =? 129) && (code c =? 159))
  || ((code a =? 227) && (code b =? 128) && (code c =? 128)).

(** [strings.TrimLeftFunc(s, unicode.IsSpace)]. *)
Fixpoint trimLeftSpace (s : string) : string :=
  match s with
  | EmptyString => EmptyString
  | String a r1 =>
      if isAsciiSpace a then trimLeftSpace r1
      else
        match r1 with
        | EmptyString => s
        | String b r2 =>
            if isSpace2 a b then trimLeftSpace r2
            else
              match r2 with
              | EmptyString => s
              | String c r3 =>
                  if isSpace3 a b c then trimLeftSpace r3 else s
              end
        end
  end.

Fixpoint rev_append (s acc : string) : string :=
  match s with
  | EmptyString => acc
  | String a rest => rev_append rest (String a acc)
  end.

Definition rev (s : string) : string := rev_append s EmptyString.

(** Same as [trimLeftSpace] on the reversed string: the encodings are
    matched back to front. *)
Fixpoint trimLeftSpaceRev (s : string) : string :=
  match s with
  | EmptyString => EmptyString
  | String a r1 =>
      if isAsciiSpace a then trimLeftSpaceRev r1
      else
        match r1 with
        | EmptyString => s
        | String b r2 =>
            if isSpace2 b a then trimLeftSpaceRev r2
            else
              match r2 with
              | EmptyString => s
              | String c r3 =>
                  if isSpace3 c b a then trimLeftSpaceRev r3 else s
              end
        end
  end.

(** [strings.TrimSpace] / [bytes.TrimSpace]:
    [TrimRightFunc(TrimLeftFunc(s, IsSpace), IsSpace)]. *)
Definition TrimSpace (s : string) : string :=
  rev (trimLeftSpaceRev (rev (trimLeftSpace s))).

End GoStrings.

(** ** Go standard library: [strconv.ParseInt] *)

Module GoStrconv.
Import GoStrings.

Definition digitVal (c : ascii) : option Z :=
  let n := code c in
  if (48 <=? n) && (n <=? 57) then Some (n - 48)
  else if (97 <=? n) && (n <=? 122) then Some (n - 97 + 10)
  else if (65 <=? n) && (n <=? 90) then Some (n - 65 + 10)
  else None.

(** The digit loop of [ParseUint]; a digit not below the base is a
    syntax error.  The accumulator is unbounded, the range is checked
    by the caller. *)
Fixpoint parseDigits (base acc : Z) (s : string) : option Z :=
  match s with
  | EmptyString => Some acc
  | String c rest =>
      match digitVal c with
      | Some d => if d <? base then parseDigits base (acc * base + d) rest else None
      | None => None
      end
  end.

(** [strconv.ParseInt(s, base, bitSize)] for an explicit base; [None]
    stands for a non-nil [*NumError] (syntax or range). *)
Definition ParseInt (s : string) (base bitSize : Z) : option Z :=
  match s with
  | EmptyString => None
  | String c rest =>
      let '(neg, body) :=
        if byte_eqb c "+"%char then (false, rest)
        else if byte_eqb c "-"%char then (true, rest)
        else (false, s) in
      match body with
      | EmptyString => None
      | _ =>
          match parseDigits base 0 body with
          | None => None
          | Some un =>
              let cutoff := 2 ^ (bitSize - 1) in
              if neg then (if un <=? cutoff then Some (- un) else None)
              else (if un <? cutoff then Some un else None)
          end
      end
  end.

End GoStrconv.

(** ** Go standard library: [path/filepath] (Unix) *)

Module GoFilepath.
Import GoStrings.

(** [filepath.ToSlash] is the identity where the separator is '/'. *)
Definition ToSlash (p : string) : string := p.

(** One step of the lexical processing of [filepath.Clean]: [stack] holds
    the kept elements, innermost first. *)
Definition cleanStep (rooted : bool) (stack : list string) (elem : string)
  : list string :=
  if (elem =? "")%string || (elem =? ".")%string then stack
  else if (elem =? "..")%string then
    match stack with
    | top :: below => if (top =? "..")%string then elem :: stack else below
    | [] => if rooted then [] else [elem]
    end
  else elem :: stack.

Definition join (elems : list string) : string := String.concat "/" elems.

(** [filepath.Clean]. *)
Definition Clean (p : string) : string :=
  match p with
  | EmptyString => "."
  | String c _ =>
      let rooted := byte_eqb c "/"%char in
      let stack := fold_left (cleanStep rooted) (Split p "/"%char) [] in
      let body := join (List.rev stack) in
      if rooted then String "/"%char body
      else if (body =? "")%string then "." else body
  end.

End GoFilepath.

(** ** Data model *)

(** [vcs.SubmoduleInfo]. *)
Record SubmoduleInfo := mkSubmoduleInfo {
  URL : string;
  CommitID : string
}.

(** [util.FileInfo]: [Mode_] is an [os.FileMode] (a [uint32]), [Size_] an
    [int64]; [Sys_] is [nil] or a [vcs.SubmoduleInfo]. *)
Record FileInfo := mkFileInfo {
  Name_ : string;
  Mode_ : Z;
  Size_ : Z;
  Sys_ : option SubmoduleInfo
}.

(** [os.FileMode] bits. *)
Definition ModeDir : Z := 2 ^ 31.
Definition ModeSymlink : Z := 2 ^ 27.
Definition ModeDevice : Z := 2 ^ 26.

Definition IsSymlink (m : Z) : bool := negb (Z.land m ModeSymlink =? 0).

(** The conversion [os.FileMode(mode)] of an [int64]. *)
Definition FileMode (mode : Z) : Z := mode mod 2 ^ 32.

(** The constant [gitModeSymlink = 020000]. *)
Definition gitModeSymlink : Z := 8192.

(** The errors the package returns, one constructor per construction site;
    [GoPanic] is a run-time panic unwinding the call. *)
Inductive error :=
| UnsafeArgumentError (msg : string)
| PathError (op path : string)
| ExecError (argv : list string) (err out : string)
| InvalidOutput (out : string)
| InvalidOid (oid : string)
| InvalidSize (sizeStr : string)
| NumError (num : string)
| OtherError (msg : string)
| GoPanic (msg : string).

(** [os.IsNotExist]: the [*os.PathError] values built here all wrap
    [os.ErrNotExist]. *)
Definition isNotFound (e : error) : bool :=
  match e with PathError _ _ => true | _ => false end.

(** Errors reporting that the subprocess output violates the record
    grammar. *)
Definition isMalformedOutput (e : error) : bool :=
  match e with
  | InvalidOutput _ | InvalidOid _ | InvalidSize _ | NumError _ => true
  | _ => false
  end.

Inductive result (A : Type) :=
| Ok (a : A)
| Err (e : error).
Arguments Err {A} e.

(** A subprocess started by the package, as a fake executor would record it. *)
Inductive invocation :=
| Command (repo : string) (argv : list string)
| ReadFileBytes (repo commit path : string).

(** Code that runs subprocesses but does not touch the cache: its result
    and the invocations it made, in order. *)
Definition Exec (A : Type) : Type := result A * list invocation.

Definition ret {A} (a : A) : Exec A := (Ok a, []).
Definition raise {A} (e : error) : Exec A := (Err e, []).
Definition bind {A B} (m : Exec A) (k : A -> Exec B) : Exec B :=
  match m with
  | (Ok a, log) => let '(rb, log') := k a in (rb, log ++ log')
  | (Err e, log) => (Err e, log)
  end.

Notation "x <- m ;; k" := (bind m (fun x => k))
  (at level 61, m at next level, right associativity).

(** ** [groupcache/lru] *)

Module lru.

(** Entries, most recently used first; keys are distinct. *)
Definition Cache : Type := list (string * list FileInfo).

Definition MaxEntries : nat := 5.

Definition New : Cache := [].

Fixpoint lookup (key : string) (c : Cache) : option (list FileInfo) :=
  match c with
  | [] => None
  | (k, v) :: rest => if (k =? key)%string then Some v else lookup key rest
  end.

Fixpoint remove (key : string) (c : Cache) : Cache :=
  match c with
  | [] => []
  | (k, v) :: rest =>
      if (k =? key)%string then remove key rest else (k, v) :: remove key rest
  end.

(** [Get]: a hit moves the entry to the front. *)
Definition Get (key : string) (c : Cache) : option (list FileInfo) * Cache :=
  match lookup key c with
  | Some v => (Some v, (key, v) :: remove key c)
  | None => (None, c)
  end.

(** [Add]: a present key is moved to the front with the new value; a new
    key is pushed, and the oldest entry removed beyond [MaxEntries]. *)
Definition Add (key : string) (v : list FileInfo) (c : Cache) : Cache :=
  match lookup key c with
  | Some _ => (key, v) :: remove key c
  | None =>
      let c' := (key, v) :: c in
      if (MaxEntries <? List.length c')%nat then removelast c' else c'
  end.

End lru.

(** ** [util.SortFileInfosByName] *)

Module FileInfoByName <: Orders.TotalLeBool.
Definition t := FileInfo.
Definition leb (a b : FileInfo) : bool := String.leb (Name_ a) (Name_ b).
Lemma leb_total : forall a b, leb a b = true \/ leb b a = true.
Proof. intros a b; apply String.leb_total. Qed.
End FileInfoByName.

Module FileInfoSort := Mergesort.Sort FileInfoByName.

(** Modelled from the spec: [util.SortFileInfosByName] (package [pkg/vcs/util]
    is not among the sources).  The spec asks for entries "sorted by name,
    case-sensitively, byte-wise": a sort by [Name_] under the byte-wise
    lexicographic order of Go's string [<].  Entries of equal name keep
    their relative order here. *)
Definition SortFileInfosByName (fis : list FileInfo) : list FileInfo :=
  FileInfoSort.sort fis.

(** The process-wide state: the root listing cache and the subprocesses
    started so far. *)
Record State := mkState {
  lsTreeRootCache : lru.Cache;
  invocations : list invocation
}.

Definition initState : State := mkState lru.New [].

(** Code that may also use the cache. *)
Definition M (A : Type) : Type := State -> result A * State.

Definition liftExec {A} (m : Exec A) : M A :=
  fun s => (fst m, mkState (lsTreeRootCache s) (invocations s ++ snd m)).

Definition retM {A} (a : A) : M A := fun s => (Ok a, s).
Definition raiseM {A} (e : error) : M A := fun s => (Err e, s).
Definition bindM {A B} (m : M A) (k : A -> M B) : M B :=
  fun s =>
    match m s with
    | (Ok a, s') => k a s'
    | (Err e, s') => (Err e, s')
    end.

Notation "x <~ m ;; k" := (bindM m (fun x => k))
  (at level 61, m at next level, right associativity).

(** [*Repository]; only the field the listing code reads. *)
Record Repository := mkRepository { repoURI : string }.

Definition NUL : ascii := Ascii.zero.
Definition TAB : ascii := "009"%char.
Definition SPACE : ascii := " "%char.
Definition SLASH : ascii := "/"%char.

(** ** The record format

    [<mode> <type> <object-id> <size> TAB <path>], records ending in NUL. *)

(** The metadata block of a record. *)
Definition metaBlock (modeStr typ oid size3 : string) : string :=
  (modeStr ++ String SPACE (typ ++ String SPACE (oid ++ String SPACE size3)))%string.

(** A record without its terminator. *)
Definition recordLine (modeStr typ oid size3 path : string) : string :=
  (metaBlock modeStr typ oid size3 ++ String TAB path)%string.

(** ** The saved query form

    The React component [SavedQueryForm] of the same source file.  A
    JavaScript string is modelled by [string], the component's state by a
    record, and an event handler by a function from the state before the
    event to the state after it, together with what it sends to
    [eventLogger.log]. *)

Module SavedQueryForm.

(** [interface SavedQueryFields]. *)
Record SavedQueryFields := mkFields {
  description : string;
  query : string;
  subject : string;
  showOnHomepage : bool;
  notify : bool;
  notifySlack : bool;
  notifyUsers : list string;
  notifyOrganizations : list string
}.

(** [Partial<SavedQueryFields>]: every field may be absent. *)
Record PartialFields := mkPartial {
  defaultDescription : option string;
  defaultQuery : option string;
  defaultSubject : option string;
  defaultShowOnHomepage : option bool;
  defaultNotify : option bool;
  defaultNotifySlack : option bool;
  defaultNotifyUsers : option (list string);
  defaultNotifyOrganizations : option (list string)
}.

(** [GQL.ConfigurationSubject] (its declaration is not among the sources):
    the component reads [__typename] and [id] of a subject, [username] of a
    user and [name] of an organization. *)
Inductive ConfigurationSubject :=
| User (id username : string)
| Org (id name : string)
| OtherSubject (typename id : string).

Definition subjectId (s : ConfigurationSubject) : string :=
  match s with
  | User id _ => id
  | Org id _ => id
  | OtherSubject _ id => id
  end.

(** [interface State]; [error] is kept by its message. *)
Record State := mkState {
  values : SavedQueryFields;
  subjectOptions : list ConfigurationSubject;
  isSubmitting : bool;
  isFocused : bool;
  error : option string;
  sawUnsupportedNotifyQueryWarning : bool
}.

(** Truthiness of a JavaScript string. *)
Definition truthy (s : string) : bool := negb (s =? "")%string.

(** [(defaultValues && defaultValues.f) || ''] and its variants. *)
Definition stringOr (d : option PartialFields)
           (f : PartialFields -> option string) : string :=
  match d with
  | Some p => match f p with Some s => s | None => "" end
  | None => ""
  end.

Definition boolOf (d : option PartialFields)
           (f : PartialFields -> option bool) : bool :=
  match d with
  | Some p => match f p with Some b => b | None => false end
  | None => false
  end.

Definition arrayOr (d : option PartialFields)
           (f : PartialFields -> option (list string)) : list string :=
  match d with
  | Some p => match f p with Some l => l | None => [] end
  | None => []
  end.

(** The state set by [constructor(props)]. *)
Definition constructor (defaultValues : option PartialFields) : State :=
  mkState
    (mkFields (stringOr defaultValues defaultDescription)
              (stringOr defaultValues defaultQuery)
              (stringOr defaultValues defaultSubject)
              (boolOf defaultValues defaultShowOnHomepage)
              (boolOf defaultValues defaultNotify)
              (boolOf defaultValues defaultNotifySlack)
              (arrayOr defaultValues defaultNotifyUsers)
              (arrayOr defaultValues defaultNotifyOrganizations))
    [] false false None false.

(** [isUnsupportedNotifyQuery]. *)
Definition isUnsupportedNotifyQuery (v : SavedQueryFields) : bool :=
  let notifying :=
    notify v || notifySlack v
    || (0 <? List.length (notifyUsers v))%nat
    || (0 <? List.length (notifyOrganizations v))%nat in
  notifying
  && negb (GoStrings.Contains (query v) "type:diff")
  && negb (GoStrings.Contains (query v) "type:commit").

(** [configurationSubjectLabel]; the [switch] has no case for another
    [__typename], on which the function returns [undefined]. *)
Definition configurationSubjectLabel (s : ConfigurationSubject) (short : bool)
  : option string :=
  match s with
  | User _ username =>
      Some (if short then username else username ++ " (user settings)")%string
  | Org _ name =>
      Some (if short then name else name ++ " (org settings)")%string
  | OtherSubject _ _ => None
  end.

Definition isOrgOrUser (s : ConfigurationSubject) : bool :=
  match s with
  | User _ _ | Org _ _ => true
  | OtherSubject _ _ => false
  end.

(** [savingToOrg]; its result is used as a condition only. *)
Definition savingToOrg (st : State) : bool :=
  match find (fun o => (subjectId o =? subject (values st))%string)
             (subjectOptions st) with
  | Some (Org _ _) => true
  | _ => false
  end.

(** [saveTargetName]; [None] is [undefined]. *)
Definition saveTargetName (st : State) : option string :=
  match find (fun o => (subjectId o =? subject (values st))%string)
             (filter isOrgOrUser (subjectOptions st)) with
  | Some chosen => configurationSubjectLabel chosen true
  | None => None
  end.

(** The [disabled] attribute of the submit button. *)
Definition submitDisabled (st : State) : bool :=
  negb (truthy (description (values st)) && truthy (query (values st))
        && truthy (subject (values st)))
  || isSubmitting st.

(** The names after "Note: also notifying". *)
Definition alsoNotifying (v : SavedQueryFields) : string :=
  String.concat ", "
    (map (fun user => user ++ " (user)")%string (notifyUsers v)
       ++ map (fun org => org ++ " (org)")%string (notifyOrganizations v)).

(** The handlers return the state after the event and what was logged. *)
Definition Handler : Type := State -> State * list string.

Definition setValues (v : SavedQueryFields) (st : State) : State :=
  mkState v (subjectOptions st) (isSubmitting st) (isFocused st) (error st)
          (sawUnsupportedNotifyQueryWarning st).

(** [handleQueryChange], on [event.currentTarget.value]. *)
Definition handleQueryChange (value : string) : Handler :=
  fun st =>
    let v := values st in
    let newValues :=
      mkFields (description v) value (subject v) (showOnHomepage v)
               (notify v) (notifySlack v) (notifyUsers v)
               (notifyOrganizations v) in
    let warn := negb (sawUnsupportedNotifyQueryWarning st)
                && isUnsupportedNotifyQuery newValues in
    let st1 :=
      if warn
      then mkState (values st) (subjectOptions st) (isSubmitting st)
                   (isFocused st) (error st) true
      else st in
    let pv := values st1 in
    (setValues (mkFields (description pv) value (subject pv)
                         (showOnHomepage pv) (notify pv) (notifySlack pv)
                         (notifyUsers pv) (notifyOrganizations pv)) st1,
     if warn then ["SavedSearchUnsupportedNotifyQueryWarning"] else []).

(** The keys for which the component creates an input change handler. *)
Inductive FieldKey :=
| KeyDescription | KeySubject | KeyShowOnHomepage | KeyNotify | KeyNotifySlack.

(** [event.currentTarget] of a change event. *)
Record InputTarget := mkTarget {
  value : string;
  checked : bool;
  type : string
}.

(** [createInputChangeHandler(key)]: the field takes [checked] for a
    checkbox and [value] otherwise.  The description and the subject are
    bound to a text and a radio input, the three flags to checkboxes; an
    event that would give a field a value outside its declared type has no
    successor state here. *)
Definition createInputChangeHandler (key : FieldKey) (t : InputTarget)
           (st : State) : option (State * list string) :=
  let v := values st in
  let isCheckbox := (type t =? "checkbox")%string in
  match key, isCheckbox with
  | KeyDescription, false =>
      Some (setValues (mkFields (value t) (query v) (subject v)
                                (showOnHomepage v) (notify v) (notifySlack v)
                                (notifyUsers v) (notifyOrganizations v)) st, [])
  | KeySubject, false =>
      Some (setValues (mkFields (description v) (query v) (value t)
                                (showOnHomepage v) (notify v) (notifySlack v)
                                (notifyUsers v) (notifyOrganizations v)) st, [])
  | KeyShowOnHomepage, true =>
      Some (setValues (mkFields (description v) (query v) (subject v)
                                (checked t) (notify v) (notifySlack v)
                                (notifyUsers v) (notifyOrganizations v)) st, [])
  | KeyNotify, true =>
      Some (setValues (mkFields (description v) (query v) (subject v)
                                (showOnHomepage v) (checked t) (notifySlack v)
                                (notifyUsers v) (notifyOrganizations v)) st, [])
  | KeyNotifySlack, true =>
      Some (setValues (mkFields (description v) (query v) (subject v)
                                (showOnHomepage v) (notify v) (checked t)
                                (notifyUsers v) (notifyOrganizations v)) st, [])
  | _, _ => None
  end.

(** [handleInputFocus] and [handleInputBlur]. *)
Definition handleInputFocus : Handler :=
  fun st =>
    (mkState (values st) (subjectOptions st) (isSubmitting st) true (error st)
             (sawUnsupportedNotifyQueryWarning st), []).

Definition handleInputBlur : Handler :=
  fun st =>
    (mkState (values st) (subjectOptions st) (isSubmitting st) false (error st)
             (sawUnsupportedNotifyQueryWarning st), []).

(** [handleSubmit], up to the call of [props.onSubmit]. *)
Definition handleSubmit : Handler :=
  fun st =>
    (mkState (values st) (subjectOptions st) true (isFocused st) (error st)
             (sawUnsupportedNotifyQueryWarning st), []).

(** The [catchError] of [handleSubmit]. *)
Definition submitFailed (err : string) : Handler :=
  fun st =>
    (mkState (values st) (subjectOptions st) (isSubmitting st) (isFocused st)
             (Some err) (sawUnsupportedNotifyQueryWarning st), []).

(** The subscription of [componentDidMount] to the configuration. *)
Definition configurationChanged (subjects : list ConfigurationSubject)
  : Handler :=
  fun st =>
    let first := find (fun s => truthy (subjectId s)) subjects in
    let v := values st in
    let chosen :=
      if truthy (subject v) then subject v
      else match first with
           | Some s => subjectId s
           | None => ""
           end in
    (mkState (mkFields (description v) (query v) chosen (showOnHomepage v)
                       (notify v) (notifySlack v) (notifyUsers v)
                       (notifyOrganizations v))
             subjects (isSubmitting st) (isFocused st) (error st)
             (sawUnsupportedNotifyQueryWarning st), []).

(** What can happen to a mounted component. *)
Inductive Event :=
| QueryChange (value : string)
| InputChange (key : FieldKey) (target : InputTarget)
| InputFocus
| InputBlur
| Submit
| SubmitFailed (err : string)
| ConfigurationChanged (subjects : list ConfigurationSubject).

Definition handle (e : Event) (st : State) : option (State * list string) :=
  match e with
  | QueryChange value => Some (handleQueryChange value st)
  | InputChange key target => createInputChangeHandler key target st
  | InputFocus => Some (handleInputFocus st)
  | InputBlur => Some (handleInputBlur st)
  | Submit => Some (handleSubmit st)
  | SubmitFailed err => Some (submitFailed err st)
  | ConfigurationChanged subjects => Some (configurationChanged subjects st)
  end.

(** The condition [error && !isSubmitting] under which [render] shows the
    error of a failed submission. *)
Definition errorShown (st : State) : bool :=
  match error st with
  | Some _ => negb (isSubmitting st)
  | None => false
  end.

(** The filter of the [keydown] subscription: does this key cancel the
    form? *)
Definition escapeCancels (key : string) (st : State) : bool :=
  negb (isFocused st) && (key =? "Escape")%string && negb (isSubmitting st).

(** The [catchError] belongs to the pipeline that [handleSubmit] builds: a
    submission fails only after it was made.  [submitted] tells whether
    [handleSubmit] has run. *)
Fixpoint failuresFollowSubmit (submitted : bool) (events : list Event) : bool :=
  match events with
  | [] => true
  | Submit :: rest => failuresFollowSubmit true rest
  | SubmitFailed _ :: rest => submitted && failuresFollowSubmit submitted rest
  | _ :: rest => failuresFollowSubmit submitted rest
  end.

(** A sequence of events, with everything logged on the way. *)
Fixpoint run (events : list Event) (st : State)
  : option (State * list string) :=
  match events with
  | [] => Some (st, [])
  | e :: rest =>
      match handle e st with
      | None => None
      | Some (st1, log1) =>
          match run rest st1 with
          | None => None
          | Some (st2, log2) => Some (st2, log1 ++ log2)
          end
      end
  end.

End SavedQueryForm.

(** ** Instances for the worked examples

    The parameters of the listing code (see the section below) are given
    concrete values here, so that the functions can be run. *)

Module Examples.

(** Modelled from the spec: the Argument Safety Guard [checkSpecArgSafety]
    (its body is not among the sources) "fails with an UnsafeArgumentError
    if the string could be interpreted as a command option (e.g., begins
    with a dash)". *)
Definition rejectLeadingDash (spec : string) : option string :=
  if GoStrings.HasPrefix spec "-"
  then Some ("invalid git revision spec (begins with '-'): " ++ spec)%string
  else None.

Definition isHexDigit (c : ascii) : bool :=
  let n := GoStrings.code c in
  ((48 <=? n) && (n <=? 57)) || ((97 <=? n) && (n <=? 102))
  || ((65 <=? n) && (n <=? 70)).

Fixpoint allHex (s : string) : bool :=
  match s with
  | EmptyString => true
  | String c rest => isHexDigit c && allHex rest
  end.

(** Modelled from the spec: [vcs.IsAbsoluteRevision] (not among the
    sources) accepts "a syntactically valid full object identifier
    (fixed-length hexadecimal)"; the full length of a git object id is
    forty digits. *)
Definition isAbsoluteRevision (s : string) : bool :=
  (String.length s =? 40)%nat && allHex s.

(** An [ensureAbsCommit] that returns normally on absolute revisions only. *)
Definition absCommitOrPanic (commit : string) : bool := isAbsoluteRevision commit.

(** A [vcs.ModeSubmodule]: git's [0160000] together with [os.ModeDevice]. *)
Definition modeSubmodule : Z := Z.lor 57344 ModeDevice.

(** A [util.Rel]: the leading '/' is dropped, "/" is the root ".". *)
Definition relPath (path : string) : string :=
  if (path =? "/")%string then "." else GoStrings.TrimPrefix path "/".

Definition oidA : string := "aaaaaaaaaaaaaaaaaaaaaaaaaaaaaaaaaaaaaaaa".
Definition oidB : string := "bbbbbbbbbbbbbbbbbbbbbbbbbbbbbbbbbbbbbbbb".
Definition commit1 : string := "1111111111111111111111111111111111111111".

(** One record of [git ls-tree --long -z], with its NUL terminator. *)
Definition record (mode typ oid size path : string) : string :=
  (recordLine mode typ oid size path ++ String NUL "")%string.

(** The listing of a directory of one-byte regular files. *)
Definition listingOf (oid : string) (names : list string) : string :=
  fold_right (fun name acc => (record "100644" "blob" oid "1" name ++ acc)%string)
             EmptyString names.

Fixpoint argv_eqb (a b : list string) : bool :=
  match a, b with
  | [], [] => true
  | x :: a', y :: b' => (x =? y)%string && argv_eqb a' b'
  | _, _ => false
  end.

Definition lsTreeCmd (commit : string) (rest : list string) : list string :=
  ["git"; "ls-tree"; "--long"; "--full-name"; "-z"; commit] ++ rest.

Definition failed : string * option string := ("", Some "exit status 128").

(** A repository holding the directory [a] with the ten-byte file
    [a/b.txt], the symlink [link] to [a/b.txt], the symlink [link2] to
    [link], and the submodule [sub]. *)
Definition demoGit (repo : string) (argv : list string) : string * option string :=
  if negb (repo =? "demo")%string then failed
  else if argv_eqb argv (lsTreeCmd commit1 ["-r"; "-t"]) then
    (record "040000" "tree" oidA "      -" "a"
       ++ record "100644" "blob" oidB "     10" "a/b.txt"
       ++ record "120000" "blob" oidA "      7" "link"
       ++ record "120000" "blob" oidB "      4" "link2"
       ++ record "160000" "commit" oidB "      -" "sub", None)%string
  else if argv_eqb argv (lsTreeCmd commit1 ["--"; "a/"]) then
    (record "100644" "blob" oidB "     10" "a/b.txt", None)
  else if argv_eqb argv (lsTreeCmd commit1 ["--"; "a/b.txt"]) then
    (record "100644" "blob" oidB "     10" "a/b.txt", None)
  else if argv_eqb argv (lsTreeCmd commit1 ["--"; "link"]) then
    (record "120000" "blob" oidA "      7" "link", None)
  else if argv_eqb argv (lsTreeCmd commit1 ["--"; "link2"]) then
    (record "120000" "blob" oidB "      4" "link2", None)
  else if argv_eqb argv (lsTreeCmd commit1 ["--"; "sub"]) then
    (record "160000" "commit" oidB "      -" "sub", None)
  else if argv_eqb argv (lsTreeCmd commit1 ["--"; "a/sub/x"]) then
    (record "160000" "commit" oidB "      -" "a/sub", None)
  else if argv_eqb argv (lsTreeCmd commit1 ["-r"; "-t"; "--"; "a/b/"]) then
    (record "040000" "tree" oidA "      -" "a"
       ++ record "040000" "tree" oidB "      -" "a/b"
       ++ record "100644" "blob" oidB "      3" "a/b/c.txt", None)%string
  else if argv_eqb argv (lsTreeCmd commit1 ["--"; "cut"]) then
    (record "100644" "blob" oidA "      1" "cut"
       ++ recordLine "100644" "blob" oidB "      2" "cut2", None)%string
  else if argv_eqb argv (lsTreeCmd commit1 ["--"; "missing"]) then
    ("", None)
  else if argv_eqb argv (lsTreeCmd commit1 ["--"; "ondisk"]) then
    ("fatal: Path 'ondisk' exists on disk, but not in '1111111'",
     Some "exit status 128")
  else if argv_eqb argv (lsTreeCmd commit1 ["--"; "notab"]) then
    ("100644 blob " ++ oidA ++ " 1 notab" ++ String NUL "", None)%string
  else failed.

(** [git config --get submodule.<name>.url]. *)
Definition demoConfig (repo : string) (argv : list string) : string * option string :=
  if (repo =? "demo")%string
     && argv_eqb argv ["git"; "config"; "--get"; "submodule.sub.url"]
  then (String "010" "https://example.com/sub.git" ++ String "010" "", None)%string
  else ("", Some "exit status 1").

(** The contents of the two symlinks. *)
Definition demoFile (repo commit path : string) : result string :=
  if (repo =? "demo")%string && (commit =? commit1)%string then
    if (path =? "link")%string then Ok "a/b.txt"
    else if (path =? "link2")%string then Ok "link"
    else Err (OtherError "not a blob")
  else Err (OtherError "no such repository").

Definition demo : Repository := mkRepository "demo".

(** A repository large enough for its root listing to be cached: 5001
    one-byte files named by four hexadecimal digits.  Its identifier holds
    a colon. *)
Definition hexChar (n : nat) : ascii :=
  match String.get n "0123456789abcdef" with
  | Some c => c
  | None => "0"%char
  end.

Definition fileName (i : nat) : string :=
  String (hexChar ((i / 4096) mod 16))
    (String (hexChar ((i / 256) mod 16))
       (String (hexChar ((i / 16) mod 16))
          (String (hexChar (i mod 16)) EmptyString))).

Definition bigNames : list string := map fileName (seq 0 (5 * 1000 + 1)).

Definition bigOutput : string := listingOf oidA bigNames.

Definition big : Repository := mkRepository "h:r".


Definition crowdedGit (repo : string) (argv : list string) : string * option string :=
  if (repo =? "h:r")%string && argv_eqb argv (lsTreeCmd commit1 ["-r"; "-t"])
  then (bigOutput, None)
  else failed.


(** A tool that exits normally and prints a warning, and no record. *)
Definition chattyGit (repo : string) (argv : list string) : string * option string :=
  ("warning: refname is ambiguous.", None).

End Examples.

(** ** Package [gitcmd] *)

Section Gitcmd.
Import GoStrings GoStrconv GoFilepath.

(** Functions and constants of the repository that the listing code calls
    and whose bodies are not among the sources: they are parameters of the
    development. *)

(** [checkSpecArgSafety]: [Some msg] is the error it returns. *)
Variable checkSpecArgSafety : string -> option string.
(** [ensureAbsCommit] returns no value: [false] means it does not return
    normally (it panics). *)
Variable ensureAbsCommit : string -> bool.
(** [vcs.IsAbsoluteRevision]. *)
Variable IsAbsoluteRevision : string -> bool.
(** [vcs.ModeSubmodule]. *)
Variable ModeSubmodule : Z.
(** [util.Rel]. *)
Variable Rel : string -> string.

(** The external tool.  History at a commit is immutable, so what a
    command prints is a function of the repository and the argument vector:
    [runCombined] is stdout and stderr together with the exit error,
    [runStdout] stdout alone, [fileContent] what [readFileBytes] yields. *)
Variable runCombined : string -> list string -> string * option string.
Variable runStdout : string -> list string -> string * option string.
Variable fileContent : string -> string -> string -> result string.

(** [r.command(name, args...).CombinedOutput(ctx)]. *)
Definition CombinedOutput (r : Repository) (argv : list string)
  : Exec (string * option string) :=
  (Ok (runCombined (repoURI r) argv), [Command (repoURI r) argv]).

(** [r.command(name, args...).Output(ctx)]. *)
Definition Output (r : Repository) (argv : list string)
  : Exec (string * option string) :=
  (Ok (runStdout (repoURI r) argv), [Command (repoURI r) argv]).

(** [r.readFileBytes(ctx, commit, path)]. *)
Definition readFileBytes (r : Repository) (commit path : string) : Exec string :=
  (fileContent (repoURI r) commit path, [ReadFileBytes (repoURI r) commit path]).

(** The [switch typ] of the loop body: the translated mode (still an
    [int64]) and the [Sys_] value.  [name] is the record's path after the
    submodule fallback, before trimming. *)
Definition translateMode (r : Repository) (typ oid name : string) (mode : Z)
  : Exec (Z * option SubmoduleInfo) :=
  if (typ =? "blob")%string then
    if negb (Z.land mode gitModeSymlink =? 0) then ret (ModeSymlink, None)
    else ret (Z.lor mode 420, None)
  else if (typ =? "commit")%string then
    res <- Output r ["git"; "config"; "--get";
                     ("submodule." ++ name ++ ".url")%string] ;;
    let url := match snd res with
               | None => TrimSpace (fst res)
               | Some _ => ""
               end in
    ret (Z.lor mode ModeSubmodule, Some (mkSubmoduleInfo url oid))
  else if (typ =? "tree")%string then ret (Z.lor mode ModeDir, None)
  else ret (mode, None).

(** The size column: "-" for a directory or submodule, else a
    non-negative decimal [int64]. *)
Definition parseSize (sizeStr : string) : Exec Z :=
  if (sizeStr =? "-")%string then ret 0
  else match ParseInt sizeStr 10 64 with
       | Some size => if size <? 0 then raise (InvalidSize sizeStr) else ret size
       | None => raise (InvalidSize sizeStr)
       end.

Definition slicePanic : error := GoPanic "slice bounds out of range".

(** The loop body once the record is cut at its tab: [meta] is
    [line[:tabPos]] and [name0] is [line[tabPos+1:]]. *)
Definition parseRecord (r : Repository) (out trimPath : string) (prefixLen : Z)
           (meta name0 : string) : Exec FileInfo :=
  let info := SplitN meta SPACE 4 in
  let name := if len name0 <? len trimPath then trimPath else name0 in
  match info with
  | [modeStr; typ; oid; size3] =>
      if negb (IsAbsoluteRevision oid) then raise (InvalidOid oid)
      else
        size <- parseSize (TrimSpace size3) ;;
        match ParseInt modeStr 8 32 with
        | None => raise (NumError modeStr)
        | Some mode =>
            ms <- translateMode r typ oid name mode ;;
            match sliceFrom name (Z.to_nat prefixLen) with
            | Some nm => ret (mkFileInfo nm (FileMode (fst ms)) size (snd ms))
            | None => raise slicePanic
            end
        end
  | _ => raise (InvalidOutput out)
  end.

(** The body of the loop over the records of [out]. *)
Definition parseLine (r : Repository) (out trimPath : string) (prefixLen : Z)
           (line : string) : Exec FileInfo :=
  let tabPos := IndexByte line TAB in
  if tabPos =? -1 then raise (InvalidOutput out)
  else
    match sliceTo line (Z.to_nat tabPos),
          sliceFrom line (Z.to_nat (tabPos + 1)) with
    | Some meta, Some name0 => parseRecord r out trimPath prefixLen meta name0
    | _, _ => raise slicePanic
    end.

(** The loop: records are parsed in order, the first error ends the call. *)
Fixpoint parseLines (r : Repository) (out trimPath : string) (prefixLen : Z)
         (lines : list string) : Exec (list FileInfo) :=
  match lines with
  | [] => ret []
  | line :: rest =>
      fi <- parseLine r out trimPath prefixLen line ;;
      fis <- parseLines r out trimPath prefixLen rest ;;
      ret (fi :: fis)
  end.

(** The argument vector of the listing command. *)
Definition lsTreeArgs (commit path : string) (recurse : bool) : list string :=
  ["git"; "ls-tree"; "--long"; "--full-name"; "-z"; commit]
    ++ (if recurse then ["-r"; "-t"] else [])
    ++ (if (path =? "")%string then [] else ["--"; ToSlash path]).

Definition lsTreeUncached (r : Repository) (commit path : string)
           (recurse : bool) : Exec (list FileInfo) :=
  if negb (ensureAbsCommit commit) then raise (GoPanic "ensureAbsCommit")
  else
    match checkSpecArgSafety path with
    | Some msg => raise (UnsafeArgumentError msg)
    | None =>
        let argv := lsTreeArgs commit path recurse in
        res <- CombinedOutput r argv ;;
        let out := fst res in
        match snd res with
        | Some err =>
            if Contains out "exists on disk, but not in"
            then raise (PathError "ls-tree" (ToSlash path))
            else raise (ExecError argv err out)
        | None =>
            if (out =? "")%string then raise (PathError "git ls-tree" path)
            else
              let trimPath := TrimPrefix path "./" in
              let prefixLen := LastIndexByte trimPath SLASH + 1 in
              let lines := Split out NUL in
              (* the last element of [lines] is skipped by the loop *)
              fis <- parseLines r out trimPath prefixLen (removelast lines) ;;
              ret (SortFileInfosByName fis)
        end
    end.

(** The cache key. *)
Definition cacheKey (r : Repository) (commit path : string) : string :=
  (repoURI r ++ ":" ++ commit ++ ":" ++ path)%string.

(** [lsTree]; [slow] is the outcome of
    [time.Since(start) > 500*time.Millisecond] on a cache miss. *)
Definition lsTree (slow : bool) (r : Repository) (commit path : string)
           (recurse : bool) : M (list FileInfo) :=
  if negb (path =? "")%string || negb recurse then
    liftExec (lsTreeUncached r commit path recurse)
  else
    let key := cacheKey r commit path in
    fun s =>
      match lru.Get key (lsTreeRootCache s) with
      | (Some v, c) => (Ok v, mkState c (invocations s))
      | (None, c) =>
          match liftExec (lsTreeUncached r commit path recurse)
                         (mkState c (invocations s)) with
          | (Err e, s') => (Err e, s')
          | (Ok entries, s') =>
              if slow && (5000 <? Z.of_nat (List.length entries))
              then (Ok entries,
                    mkState (lru.Add key entries (lsTreeRootCache s'))
                            (invocations s'))
              else (Ok entries, s')
          end
      end.

(** [Lstat].  The listing it asks for is never the cached shape, so the
    timing flag passed to [lsTree] is immaterial. *)
Definition Lstat (r : Repository) (commit path : string) : M FileInfo :=
  match checkSpecArgSafety commit with
  | Some msg => raiseM (UnsafeArgumentError msg)
  | None =>
      let path := Clean (Rel path) in
      if (path =? ".")%string then retM (mkFileInfo "" ModeDir 0 None)
      else
        fis <~ lsTree false r commit path false ;;
        match fis with
        | [] => raiseM (PathError "ls-tree" path)
        | fi :: _ => retM fi
        end
  end.

(** [Stat]. *)
Definition Stat (r : Repository) (commit path : string) : M FileInfo :=
  match checkSpecArgSafety commit with
  | Some msg => raiseM (UnsafeArgumentError msg)
  | None =>
      let path := Rel path in
      fi <~ Lstat r commit path ;;
      if negb (Z.land (Mode_ fi) ModeSymlink =? 0) then
        b <~ liftExec (readFileBytes r commit path) ;;
        fi2 <~ Lstat r commit b ;;
        retM (mkFileInfo (Name_ fi) (Mode_ fi2) (Size_ fi2) (Sys_ fi2))
      else retM fi
  end.

(** [ReadDir]. *)
Definition ReadDir (slow : bool) (r : Repository) (commit path : string)
           (recurse : bool) : M (list FileInfo) :=
  match checkSpecArgSafety commit with
  | Some msg => raiseM (UnsafeArgumentError msg)
  | None =>
      let path := if negb (path =? "")%string
                  then (Clean (Rel path) ++ "/")%string else path in
      lsTree slow r commit path recurse
  end.

(** ** Vocabulary of the statements *)

(** Number of occurrences of a byte in a string. *)
Fixpoint countByte (c : ascii) (s : string) : nat :=
  match s with
  | EmptyString => O
  | String a rest => ((if byte_eqb a c then 1 else 0) + countByte c rest)%nat
  end.



(** A size column is acceptable when, white space trimmed, it is the dash
    or a decimal numeral of a non-negative [int64]. *)
Definition sizeFieldOK (field : string) : Prop :=
  TrimSpace field = "-"
  \/ exists n, ParseInt (TrimSpace field) 10 64 = Some n /\ 0 <= n.

(** The four defects of a record: no tab; fewer than four fields before
    the tab; an object id that is not an absolute revision; a size column
    that is neither the dash nor a non-negative integer. *)
Inductive defective : string -> Prop :=
| defect_no_tab (line : string) :
    IndexByte line TAB = -1 -> defective line
| defect_fields (meta path : string) :
    IndexByte meta TAB = -1 ->
    (countByte SPACE meta < 3)%nat ->
    defective (meta ++ String TAB path)%string
| defect_oid (modeStr typ oid size3 path : string) :
    IndexByte (metaBlock modeStr typ oid size3) TAB = -1 ->
    countByte SPACE modeStr = O -> countByte SPACE typ = O ->
    countByte SPACE oid = O ->
    IsAbsoluteRevision oid = false ->
    defective (metaBlock modeStr typ oid size3 ++ String TAB path)%string
| defect_size (modeStr typ oid size3 path : string) :
    IndexByte (metaBlock modeStr typ oid size3) TAB = -1 ->
    countByte SPACE modeStr = O -> countByte SPACE typ = O ->
    countByte SPACE oid = O ->
    ~ sizeFieldOK size3 ->
    defective (metaBlock modeStr typ oid size3 ++ String TAB path)%string.

(** The states the process can be in: it starts with an empty cache and
    no subprocess started, and changes state by calls of the package's
    operations only. *)
Inductive reachable : State -> Prop :=
| reach_init : reachable initState
| reach_lsTree (s : State) slow r commit path recurse :
    reachable s -> reachable (snd (lsTree slow r commit path recurse s))
| reach_Lstat (s : State) r commit path :
    reachable s -> reachable (snd (Lstat r commit path s))
| reach_Stat (s : State) r commit path :
    reachable s -> reachable (snd (Stat r commit path s))
| reach_ReadDir (s : State) slow r commit path recurse :
    reachable s -> reachable (snd (ReadDir slow r commit path recurse s)).

(** Every cached listing is what the uncached root listing of some
    request with that key returned. *)
Definition cacheFaithful (c : lru.Cache) : Prop :=
  forall key v, In (key, v) c ->
    exists r commit,
      key = cacheKey r commit ""
      /\ fst (lsTreeUncached r commit "" true) = Ok v.

(** Invocations that read the content of an object. *)
Definition isReadFile (i : invocation) : bool :=
  match i with ReadFileBytes _ _ _ => true | Command _ _ => false end.

(** [entryOfRecord r out path line fi]: the record [line] is cut at its
    first tab into a metadata block and a path, and [fi] is the entry the
    loop body builds from the two in a listing of [path]. *)
Definition entryOfRecord (r : Repository) (out path line : string)
           (fi : FileInfo) : Prop :=
  exists meta recPath log,
    line = (meta ++ String TAB recPath)%string
    /\ IndexByte meta TAB = -1
    /\ parseRecord r out (TrimPrefix path "./")
                   (LastIndexByte (TrimPrefix path "./") SLASH + 1)
                   meta recPath = (Ok fi, log).

(** How the name of an entry derives from the path [recPath] of its
    record, the queried path being [trimPath = dir ++ base] with [base]
    its final segment: the full record path at the root; the record path
    without its first [len dir] bytes when it is at least as long as the
    queried path; and [base], the final segment of the queried path, when
    the record path is shorter than the queried path. *)
Definition nameDerived (trimPath dir base recPath name : string) : Prop :=
  (trimPath = EmptyString -> name = recPath)
  /\ (len trimPath <= len recPath ->
      exists pre, recPath = (pre ++ name)%string /\ len pre = len dir)
  /\ (len recPath < len trimPath -> name = base).

(** Is the entry a submodule, that is, does its [Sys_] hold a
    [SubmoduleInfo]? *)
Definition isSubmodule (fi : FileInfo) : bool :=
  match Sys_ fi with Some _ => true | None => false end.

(** The command that asks for the URL of the submodule at [name]. *)
Definition configQuery (r : Repository) (name : string) : invocation :=
  Command (repoURI r)
          ["git"; "config"; "--get"; ("submodule." ++ name ++ ".url")%string].

(** What every returned entry is made of: a mode that is an [os.FileMode],
    a size that is not negative, and, for a submodule, a commit id that is
    an absolute revision. *)
Definition entryOK (fi : FileInfo) : Prop :=
  0 <= Mode_ fi < 2 ^ 32
  /\ 0 <= Size_ fi
  /\ forall info, Sys_ fi = Some info ->
                  IsAbsoluteRevision (CommitID info) = true.


Unset Implicit Arguments.

(** ** Facts about the string functions *)

Lemma len_nonneg (s : string) : 0 <= len s.
Proof. unfold len; lia. Qed.

Lemma len_String (a : ascii) (s : string) : len (String a s) = len s + 1.
Proof. unfold len; simpl String.length; lia. Qed.

Lemma length_append (s t : string) :
  String.length (s ++ t)%string = (String.length s + String.length t)%nat.
Proof. induction s as [|a s IH]; simpl; [reflexivity | now rewrite IH]. Qed.

Lemma append_assoc (s t u : string) :
  ((s ++ t) ++ u)%string = (s ++ (t ++ u))%string.
Proof. induction s as [|a s IH]; simpl; [reflexivity | now rewrite IH]. Qed.

Lemma byte_eqb_eq (a b : ascii) : byte_eqb a b = true <-> a = b.
Proof. unfold byte_eqb; apply Ascii.eqb_eq. Qed.

Lemma byte_eqb_refl (a : ascii) : byte_eqb a a = true.
Proof. now apply byte_eqb_eq. Qed.

Lemma IndexByte_bounds (s : string) (c : ascii) :
  -1 <= IndexByte s c < len s.
Proof.
  induction s as [|a s IH]; simpl IndexByte.
  - unfold len; simpl; lia.
  - rewrite len_String.
    destruct (byte_eqb a c); [pose proof (len_nonneg s); lia|].
    destruct (Z.ltb_spec (IndexByte s c) 0); lia.
Qed.

(** A found byte cuts the string where the two slice expressions cut it. *)
Lemma IndexByte_cut (s : string) (c : ascii) :
  IndexByte s c <> -1 ->
  exists pre post,
    s = (pre ++ String c post)%string
    /\ IndexByte pre c = -1
    /\ sliceTo s (Z.to_nat (IndexByte s c)) = Some pre
    /\ sliceFrom s (Z.to_nat (IndexByte s c + 1)) = Some post.
Proof.
  induction s as [|a s IH]; simpl IndexByte; intros Hfound.
  - congruence.
  - destruct (byte_eqb a c) eqn:Hac.
    + apply byte_eqb_eq in Hac; subst a.
      exists EmptyString, s; repeat split; reflexivity.
    + destruct (Z.ltb_spec (IndexByte s c) 0) as [Hneg|Hpos]; [congruence|].
      destruct IH as (pre & post & Hs & Hpre & Hto & Hfrom); [lia|].
      exists (String a pre), post.
      replace (Z.to_nat (IndexByte s c + 1)) with (S (Z.to_nat (IndexByte s c)))
        by lia.
      replace (Z.to_nat (IndexByte s c + 1 + 1))
        with (S (Z.to_nat (IndexByte s c + 1))) by lia.
      simpl; rewrite Hto, Hac, Hpre; simpl.
      repeat split; try assumption.
      now rewrite <- Hs.
Qed.

Lemma IndexByte_append (pre post : string) (c : ascii) :
  IndexByte pre c = -1 -> IndexByte (pre ++ String c post)%string c = len pre.
Proof.
  induction pre as [|a pre IH]; simpl; intros Hno.
  - now rewrite byte_eqb_refl.
  - rewrite len_String.
    destruct (byte_eqb a c); [discriminate|].
    destruct (Z.ltb_spec (IndexByte pre c) 0) as [Hneg|Hpos].
    + pose proof (IndexByte_bounds pre c).
      rewrite IH by lia.
      pose proof (len_nonneg pre).
      destruct (Z.ltb_spec (len pre) 0); lia.
    + lia.
Qed.

Lemma LastIndexByte_bounds (s : string) (c : ascii) :
  -1 <= LastIndexByte s c < len s.
Proof.
  induction s as [|a s IH]; simpl LastIndexByte.
  - unfold len; simpl; lia.
  - rewrite len_String.
    destruct (Z.leb_spec 0 (LastIndexByte s c)); [lia|].
    pose proof (len_nonneg s).
    destruct (byte_eqb a c); lia.
Qed.

(** The last occurrence of [c] cuts [s] into a directory part, empty or
    ending in [c], and a final segment free of [c]. *)
Lemma LastIndexByte_cut (s : string) (c : ascii) :
  exists dir base,
    s = (dir ++ base)%string
    /\ len dir = LastIndexByte s c + 1
    /\ IndexByte base c = -1
    /\ (dir = EmptyString \/ exists d, dir = (d ++ String c "")%string).
Proof.
  induction s as [|a s IH]; simpl LastIndexByte.
  - exists EmptyString, EmptyString; repeat split; auto.
  - destruct IH as (dir & base & Hs & Hlen & Hbase & Hdir).
    destruct (Z.leb_spec 0 (LastIndexByte s c)) as [Hin|Hout].
    + exists (String a dir), base; simpl; rewrite len_String, <- Hs.
      repeat split; try assumption; try lia.
      right. destruct Hdir as [Hd|[d Hd]].
      * subst dir; unfold len in Hlen; simpl in Hlen; lia.
      * exists (String a d); simpl; now rewrite Hd.
    + assert (dir = EmptyString) as ->.
      { pose proof (LastIndexByte_bounds s c).
        destruct dir; [reflexivity|].
        rewrite len_String in Hlen; pose proof (len_nonneg dir); lia. }
      simpl in Hs; subst base.
      destruct (byte_eqb a c) eqn:Hac.
      * apply byte_eqb_eq in Hac; subst a.
        exists (String c ""), s; repeat split; auto.
        right; now exists EmptyString.
      * exists EmptyString, (String a s); simpl; rewrite Hac, Hbase; simpl.
        repeat split; auto.
Qed.

Lemma sliceFrom_append (pre t : string) :
  sliceFrom (pre ++ t)%string (String.length pre) = Some t.
Proof.
  induction pre as [|a pre IH]; simpl; [reflexivity | exact IH].
Qed.

Lemma sliceFrom_inv (s t : string) (n : nat) :
  sliceFrom s n = Some t ->
  exists pre, s = (pre ++ t)%string /\ String.length pre = n.
Proof.
  revert s; induction n as [|n IH]; intros s H.
  - exists EmptyString; simpl in H; inversion H; auto.
  - destruct s as [|a s]; simpl in H; [discriminate|].
    destruct (IH _ H) as (pre & -> & Hlen).
    exists (String a pre); simpl; auto.
Qed.

Lemma sliceFrom_in_range (s : string) (n : nat) :
  (n <= String.length s)%nat -> exists t, sliceFrom s n = Some t.
Proof.
  revert s; induction n as [|n IH]; intros s H.
  - exists s; reflexivity.
  - destruct s as [|a s]; simpl in *; [lia|].
    apply IH; lia.
Qed.

Lemma sliceTo_append (pre t : string) :
  sliceTo (pre ++ t)%string (String.length pre) = Some pre.
Proof.
  induction pre as [|a pre IH]; simpl; [reflexivity | now rewrite IH].
Qed.

Lemma sliceFrom_append_byte (pre t : string) (c : ascii) :
  sliceFrom (pre ++ String c t)%string (S (String.length pre)) = Some t.
Proof.
  induction pre as [|a pre IH]; simpl; [reflexivity | exact IH].
Qed.

(** ** The loop body *)

Lemma parseSize_cases (sizeStr : string) :
  (exists size, parseSize sizeStr = ret size /\ 0 <= size)
  \/ parseSize sizeStr = raise (InvalidSize sizeStr).
Proof.
  unfold parseSize.
  destruct (sizeStr =? "-")%string; [left; exists 0; split; [reflexivity|lia]|].
  destruct (ParseInt sizeStr 10 64) as [size|]; [|now right].
  destruct (Z.ltb_spec size 0); [now right|left; exists size; auto].
Qed.

(** The mode switch always yields a mode; only the "commit" case runs a
    command. *)
Lemma translateMode_total (r : Repository) (typ oid name : string) (mode : Z) :
  exists ms log, translateMode r typ oid name mode = (Ok ms, log).
Proof.
  unfold translateMode, Output, bind, ret.
  destruct (typ =? "blob")%string.
  - destruct (negb (Z.land mode gitModeSymlink =? 0)); eauto.
  - destruct (typ =? "commit")%string; [eauto|].
    destruct (typ =? "tree")%string; eauto.
Qed.

Lemma parseLine_no_tab (r : Repository) (out trimPath : string) (prefixLen : Z)
      (line : string) :
  IndexByte line TAB = -1 ->
  parseLine r out trimPath prefixLen line = raise (InvalidOutput out).
Proof. intros H; unfold parseLine; now rewrite H. Qed.

(** A record is cut at its first tab. *)
Lemma parseLine_tab (r : Repository) (out trimPath : string) (prefixLen : Z)
      (line : string) :
  IndexByte line TAB <> -1 ->
  exists meta name0,
    line = (meta ++ String TAB name0)%string
    /\ IndexByte meta TAB = -1
    /\ parseLine r out trimPath prefixLen line
       = parseRecord r out trimPath prefixLen meta name0.
Proof.
  intros H.
  destruct (IndexByte_cut line TAB H) as (meta & name0 & Hl & Hm & Hto & Hfrom).
  exists meta, name0; repeat split; try assumption.
  unfold parseLine.
  destruct (Z.eqb_spec (IndexByte line TAB) (-1)); [contradiction|].
  now rewrite Hto, Hfrom.
Qed.

Lemma parseLine_record (r : Repository) (out trimPath : string) (prefixLen : Z)
      (meta name0 : string) :
  IndexByte meta TAB = -1 ->
  parseLine r out trimPath prefixLen (meta ++ String TAB name0)%string
  = parseRecord r out trimPath prefixLen meta name0.
Proof.
  intros H; unfold parseLine.
  rewrite (IndexByte_append meta name0 TAB H).
  pose proof (len_nonneg meta).
  destruct (Z.eqb_spec (len meta) (-1)); [lia|].
  replace (Z.to_nat (len meta)) with (String.length meta) by (unfold len; lia).
  replace (Z.to_nat (len meta + 1)) with (S (String.length meta))
    by (unfold len; lia).
  now rewrite sliceTo_append, sliceFrom_append_byte.
Qed.

(** The name a record is listed under, before trimming. *)
Lemma name_slice_in_range (trimPath name0 : string) :
  exists nm,
    sliceFrom (if len name0 <? len trimPath then trimPath else name0)
              (Z.to_nat (LastIndexByte trimPath SLASH + 1)) = Some nm.
Proof.
  apply sliceFrom_in_range.
  pose proof (LastIndexByte_bounds trimPath SLASH).
  destruct (Z.ltb_spec (len name0) (len trimPath)); unfold len in *; lia.
Qed.

(** What a successfully parsed record looks like. *)
Lemma parseRecord_ok_inv (r : Repository) (out trimPath : string) (prefixLen : Z)
      (meta name0 : string) (fi : FileInfo) (log : list invocation) :
  parseRecord r out trimPath prefixLen meta name0 = (Ok fi, log) ->
  exists modeStr typ oid size3 raw ms log',
    SplitN meta SPACE 4 = [modeStr; typ; oid; size3]
    /\ IsAbsoluteRevision oid = true
    /\ parseSize (TrimSpace size3) = ret (Size_ fi)
    /\ ParseInt modeStr 8 32 = Some raw
    /\ translateMode r typ oid
         (if len name0 <? len trimPath then trimPath else name0) raw
       = (Ok ms, log')
    /\ sliceFrom (if len name0 <? len trimPath then trimPath else name0)
                 (Z.to_nat prefixLen) = Some (Name_ fi)
    /\ Mode_ fi = FileMode (fst ms) /\ Sys_ fi = snd ms.
Proof.
  unfold parseRecord.
  destruct (SplitN meta SPACE 4) as [|modeStr [|typ [|oid [|size3 [|x l]]]]];
    try (unfold raise; discriminate).
  destruct (IsAbsoluteRevision oid) eqn:Hoid; [|unfold raise; discriminate].
  simpl negb; cbv iota.
  destruct (parseSize_cases (TrimSpace size3)) as [(size & Hsz & _)|Hsz];
    rewrite Hsz; [|unfold bind, raise; discriminate].
  unfold bind at 1; unfold ret at 1.
  destruct (ParseInt modeStr 8 32) as [raw|] eqn:Hmode;
    [|unfold raise; discriminate].
  destruct (translateMode_total r typ oid
              (if len name0 <? len trimPath then trimPath else name0) raw)
    as (ms & log' & Htm).
  rewrite Htm; unfold bind.
  destruct (sliceFrom _ (Z.to_nat prefixLen)) as [nm|] eqn:Hsl;
    [|unfold raise; discriminate].
  unfold ret; intros H; inversion H; subst; clear H; simpl.
  exists modeStr, typ, oid, size3, raw, ms, log'.
  repeat split; auto.
Qed.

(** A record is rejected only for a defect of its text (or by the slice
    panic that [name_slice_in_range] excludes). *)
Lemma parseRecord_err_inv (r : Repository) (out trimPath : string) (prefixLen : Z)
      (meta name0 : string) (e : error) (log : list invocation) :
  parseRecord r out trimPath prefixLen meta name0 = (Err e, log) ->
  isMalformedOutput e = true
  \/ sliceFrom (if len name0 <? len trimPath then trimPath else name0)
               (Z.to_nat prefixLen) = None.
Proof.
  unfold parseRecord.
  destruct (SplitN meta SPACE 4) as [|modeStr [|typ [|oid [|size3 [|x l]]]]];
    try (unfold raise; intros H; inversion H; now left).
  destruct (IsAbsoluteRevision oid) eqn:Hoid;
    [|unfold raise; intros H; inversion H; now left].
  simpl negb; cbv iota.
  destruct (parseSize_cases (TrimSpace size3)) as [(size & Hsz & _)|Hsz];
    rewrite Hsz; [|unfold bind, raise; intros H; inversion H; now left].
  unfold bind at 1; unfold ret at 1.
  destruct (ParseInt modeStr 8 32) as [raw|] eqn:Hmode;
    [|unfold raise; intros H; inversion H; now left].
  destruct (translateMode_total r typ oid
              (if len name0 <? len trimPath then trimPath else name0) raw)
    as (ms & log' & Htm).
  rewrite Htm; unfold bind.
  destruct (sliceFrom _ (Z.to_nat prefixLen)) as [nm|] eqn:Hsl;
    [unfold ret; discriminate|].
  now right.
Qed.

(** ** Splitting the metadata block *)

Lemma countByte_zero_IndexByte (c : ascii) (s : string) :
  countByte c s = O <-> IndexByte s c = -1.
Proof.
  induction s as [|a s IH]; simpl; [tauto|].
  destruct (byte_eqb a c); simpl; [split; [lia|discriminate]|].
  rewrite IH. pose proof (IndexByte_bounds s c).
  destruct (Z.ltb_spec (IndexByte s c) 0); lia.
Qed.

Lemma SplitN_field (a rest : string) (sep : ascii) (n : nat) :
  countByte sep a = O ->
  SplitN (a ++ String sep rest)%string sep (S (S n)) = a :: SplitN rest sep (S n).
Proof.
  induction a as [|x a IH]; intros Hno.
  - simpl. now rewrite byte_eqb_refl.
  - simpl in Hno. destruct (byte_eqb x sep) eqn:Hx; [simpl in Hno; lia|].
    specialize (IH Hno).
    change (SplitN (String x a ++ String sep rest)%string sep (S (S n)))
      with (if byte_eqb x sep then EmptyString :: SplitN (a ++ String sep rest)%string sep (S n)
            else match SplitN (a ++ String sep rest)%string sep (S (S n)) with
                 | [] => [String x EmptyString]
                 | hd :: tl => String x hd :: tl
                 end).
    now rewrite Hx, IH.
Qed.

Lemma SplitN_metaBlock (modeStr typ oid size3 : string) :
  countByte SPACE modeStr = O -> countByte SPACE typ = O ->
  countByte SPACE oid = O ->
  SplitN (metaBlock modeStr typ oid size3) SPACE 4 = [modeStr; typ; oid; size3].
Proof.
  intros Hm Ht Ho; unfold metaBlock.
  now rewrite (SplitN_field _ _ _ _ Hm), (SplitN_field _ _ _ _ Ht), (SplitN_field _ _ _ _ Ho).
Qed.

Lemma SplitN_length (s : string) (sep : ascii) (n : nat) :
  List.length (SplitN s sep (S n)) = Nat.min (S n) (S (countByte sep s)).
Proof.
  revert s; induction n as [|n IH]; intros s; [reflexivity|].
  induction s as [|a s IHs].
  - reflexivity.
  - change (SplitN (String a s) sep (S (S n)))
      with (if byte_eqb a sep then EmptyString :: SplitN s sep (S n)
            else match SplitN s sep (S (S n)) with
                 | [] => [String a EmptyString]
                 | hd :: tl => String a hd :: tl
                 end).
    simpl countByte.
    destruct (byte_eqb a sep).
    + cbn [List.length]. rewrite IH. lia.
    + destruct (SplitN s sep (S (S n))) as [|hd tl] eqn:Hs; simpl in *; lia.
Qed.

(** Fewer than three spaces before the tab: the block does not have four
    fields. *)
Lemma parseRecord_few_fields (r : Repository) (out trimPath : string)
      (prefixLen : Z) (meta name0 : string) :
  (countByte SPACE meta < 3)%nat ->
  parseRecord r out trimPath prefixLen meta name0 = raise (InvalidOutput out).
Proof.
  intros Hc; unfold parseRecord.
  pose proof (SplitN_length meta SPACE 3) as Hl.
  destruct (SplitN meta SPACE 4) as [|a [|b [|c [|d [|x l]]]]]; try reflexivity;
    cbn [List.length] in Hl; lia.
Qed.

Lemma parseRecord_bad_oid (r : Repository) (out trimPath : string)
      (prefixLen : Z) (modeStr typ oid size3 name0 : string) :
  countByte SPACE modeStr = O -> countByte SPACE typ = O ->
  countByte SPACE oid = O ->
  IsAbsoluteRevision oid = false ->
  parseRecord r out trimPath prefixLen (metaBlock modeStr typ oid size3) name0
  = raise (InvalidOid oid).
Proof.
  intros Hm Ht Ho Hbad; unfold parseRecord.
  now rewrite (SplitN_metaBlock _ _ _ size3 Hm Ht Ho), Hbad.
Qed.

Lemma parseSize_bad (field : string) :
  ~ sizeFieldOK field ->
  parseSize (TrimSpace field) = raise (InvalidSize (TrimSpace field)).
Proof.
  intros Hbad; unfold parseSize.
  destruct (String.eqb_spec (TrimSpace field) "-") as [Hd|Hd].
  - exfalso; apply Hbad; now left.
  - destruct (ParseInt (TrimSpace field) 10 64) as [n|] eqn:Hp; [|reflexivity].
    destruct (Z.ltb_spec n 0); [reflexivity|].
    exfalso; apply Hbad; right; exists n; auto.
Qed.

Lemma parseRecord_bad_size (r : Repository) (out trimPath : string)
      (prefixLen : Z) (modeStr typ oid size3 name0 : string) :
  countByte SPACE modeStr = O -> countByte SPACE typ = O ->
  countByte SPACE oid = O ->
  ~ sizeFieldOK size3 ->
  exists e, parseRecord r out trimPath prefixLen
                        (metaBlock modeStr typ oid size3) name0 = raise e
            /\ isMalformedOutput e = true.
Proof.
  intros Hm Ht Ho Hbad; unfold parseRecord.
  rewrite (SplitN_metaBlock _ _ _ size3 Hm Ht Ho).
  destruct (IsAbsoluteRevision oid); simpl negb; cbv iota.
  - rewrite (parseSize_bad _ Hbad). eexists; split; reflexivity.
  - eexists; split; reflexivity.
Qed.

(** A defective record is rejected by the loop body, with a
    malformed-output error. *)
Lemma parseLine_defective (r : Repository) (out trimPath : string)
      (prefixLen : Z) (line : string) :
  defective line ->
  exists e, parseLine r out trimPath prefixLen line = raise e
            /\ isMalformedOutput e = true.
Proof.
  intros [l H | meta path Hm Hc | m t o z path Hm H1 H2 H3 Hb
          | m t o z path Hm H1 H2 H3 Hb].
  - rewrite (parseLine_no_tab _ _ _ _ _ H). eexists; split; reflexivity.
  - rewrite (parseLine_record _ _ _ _ _ _ Hm), (parseRecord_few_fields _ _ _ _ _ _ Hc).
    eexists; split; reflexivity.
  - rewrite (parseLine_record _ _ _ _ _ _ Hm),
      (parseRecord_bad_oid _ _ _ _ _ _ _ _ _ H1 H2 H3 Hb).
    eexists; split; reflexivity.
  - rewrite (parseLine_record _ _ _ _ _ _ Hm).
    now apply parseRecord_bad_size.
Qed.

(** ** The loop and the listing *)

Lemma parseLine_err_malformed (r : Repository) (out trimPath line : string)
      (e : error) (log : list invocation) :
  parseLine r out trimPath (LastIndexByte trimPath SLASH + 1) line = (Err e, log) ->
  isMalformedOutput e = true.
Proof.
  intros H.
  destruct (Z.eq_dec (IndexByte line TAB) (-1)) as [Hno|Htab].
  - rewrite (parseLine_no_tab _ _ _ _ _ Hno) in H. now inversion H.
  - destruct (parseLine_tab r out trimPath (LastIndexByte trimPath SLASH + 1) line Htab)
      as (meta & name0 & _ & _ & Heq).
    rewrite Heq in H.
    destruct (parseRecord_err_inv _ _ _ _ _ _ _ _ H) as [Hm|Hpanic]; [assumption|].
    destruct (name_slice_in_range trimPath name0) as (nm & Hnm); congruence.
Qed.

Lemma parseLines_err (r : Repository) (out trimPath : string) (prefixLen : Z)
      (lines : list string) (e : error) (log : list invocation) :
  parseLines r out trimPath prefixLen lines = (Err e, log) ->
  exists line log',
    In line lines /\ parseLine r out trimPath prefixLen line = (Err e, log').
Proof.
  revert log; induction lines as [|line rest IH]; simpl; intros log H.
  - discriminate.
  - destruct (parseLine r out trimPath prefixLen line) as [[fi|e1] l1] eqn:Hline;
      unfold bind in H; fold (@bind FileInfo) in H.
    + destruct (parseLines r out trimPath prefixLen rest) as [[fis|e2] l2] eqn:Hrest;
        simpl in H; inversion H; subst.
      destruct (IH _ eq_refl) as (ln & lg & Hin & Hp).
      exists ln, lg; auto.
    + inversion H; subst. exists line, log; auto.
Qed.

Lemma parseLines_ok (r : Repository) (out trimPath : string) (prefixLen : Z)
      (lines : list string) (fis : list FileInfo) (log : list invocation) :
  parseLines r out trimPath prefixLen lines = (Ok fis, log) ->
  Forall2 (fun line fi =>
             exists log', parseLine r out trimPath prefixLen line = (Ok fi, log'))
          lines fis.
Proof.
  revert fis log; induction lines as [|line rest IH]; simpl; intros fis log H.
  - inversion H; constructor.
  - destruct (parseLine r out trimPath prefixLen line) as [[fi|e1] l1] eqn:Hline;
      unfold bind in H; [|discriminate].
    destruct (parseLines r out trimPath prefixLen rest) as [[fis'|e2] l2] eqn:Hrest;
      simpl in H; inversion H; subst.
    constructor; [now exists l1 | eapply IH; reflexivity].
Qed.

Lemma parseLines_rejects (r : Repository) (out trimPath : string) (prefixLen : Z)
      (lines : list string) (line : string) (e0 : error) (l0 : list invocation) :
  In line lines ->
  parseLine r out trimPath prefixLen line = (Err e0, l0) ->
  exists e log, parseLines r out trimPath prefixLen lines = (Err e, log).
Proof.
  induction lines as [|hd rest IH]; simpl; intros Hin Hbad; [contradiction|].
  destruct (parseLine r out trimPath prefixLen hd) as [[fi|e1] l1] eqn:Hhd;
    unfold bind.
  - destruct Hin as [->|Hin]; [congruence|].
    destruct (IH Hin Hbad) as (e & log & ->). simpl. eauto.
  - eauto.
Qed.

(** The listing once the subprocess has exited normally with some output. *)
Lemma lsTreeUncached_listing (r : Repository) (commit path : string)
      (recurse : bool) (out : string) :
  ensureAbsCommit commit = true ->
  checkSpecArgSafety path = None ->
  runCombined (repoURI r) (lsTreeArgs commit path recurse) = (out, None) ->
  out <> EmptyString ->
  fst (lsTreeUncached r commit path recurse)
  = match fst (parseLines r out (TrimPrefix path "./")
                          (LastIndexByte (TrimPrefix path "./") SLASH + 1)
                          (removelast (Split out NUL))) with
    | Ok fis => Ok (SortFileInfosByName fis)
    | Err e => Err e
    end.
Proof.
  intros Habs Hsafe Hrun Hout.
  unfold lsTreeUncached, CombinedOutput.
  rewrite Habs, Hsafe; simpl negb; cbv iota.
  unfold bind at 1. rewrite Hrun. cbn [fst snd].
  destruct (String.eqb_spec out ""); [contradiction|].
  destruct (parseLines _ _ _ _ _) as [[fis|e] log]; reflexivity.
Qed.

(** Every way the listing can end. *)
Lemma lsTreeUncached_cases (r : Repository) (commit path : string) (recurse : bool) :
  let res := runCombined (repoURI r) (lsTreeArgs commit path recurse) in
  (ensureAbsCommit commit = false
   /\ lsTreeUncached r commit path recurse = raise (GoPanic "ensureAbsCommit"))
  \/ (ensureAbsCommit commit = true
      /\ exists msg, checkSpecArgSafety path = Some msg
         /\ lsTreeUncached r commit path recurse = raise (UnsafeArgumentError msg))
  \/ (ensureAbsCommit commit = true /\ checkSpecArgSafety path = None
      /\ exists err, snd res = Some err
         /\ Contains (fst res) "exists on disk, but not in" = true
         /\ fst (lsTreeUncached r commit path recurse)
            = Err (PathError "ls-tree" (ToSlash path)))
  \/ (ensureAbsCommit commit = true /\ checkSpecArgSafety path = None
      /\ exists err, snd res = Some err
         /\ Contains (fst res) "exists on disk, but not in" = false
         /\ fst (lsTreeUncached r commit path recurse)
            = Err (ExecError (lsTreeArgs commit path recurse) err (fst res)))
  \/ (ensureAbsCommit commit = true /\ checkSpecArgSafety path = None
      /\ snd res = None /\ fst res = EmptyString
      /\ fst (lsTreeUncached r commit path recurse)
         = Err (PathError "git ls-tree" path))
  \/ (ensureAbsCommit commit = true /\ checkSpecArgSafety path = None
      /\ snd res = None /\ fst res <> EmptyString
      /\ fst (lsTreeUncached r commit path recurse)
         = match fst (parseLines r (fst res) (TrimPrefix path "./")
                                 (LastIndexByte (TrimPrefix path "./") SLASH + 1)
                                 (removelast (Split (fst res) NUL))) with
           | Ok fis => Ok (SortFileInfosByName fis)
           | Err e => Err e
           end).
Proof.
  intros res.
  destruct (ensureAbsCommit commit) eqn:Habs.
  2:{ left; split; [reflexivity|]. unfold lsTreeUncached; now rewrite Habs. }
  right.
  destruct (checkSpecArgSafety path) as [msg|] eqn:Hsafe.
  { left; split; [reflexivity|]. exists msg; split; [reflexivity|].
    unfold lsTreeUncached; now rewrite Habs, Hsafe. }
  right.
  destruct res as [out err] eqn:Hres; cbn [fst snd].
  destruct err as [err|].
  - destruct (Contains out "exists on disk, but not in") eqn:Hc.
    + left; repeat split; try reflexivity. exists err; repeat split; auto.
      unfold lsTreeUncached, CombinedOutput.
      rewrite Habs, Hsafe; simpl negb; cbv iota.
      unfold bind at 1. fold res. rewrite Hres. cbn [fst snd]. now rewrite Hc.
    + right; left; repeat split; try reflexivity. exists err; repeat split; auto.
      unfold lsTreeUncached, CombinedOutput.
      rewrite Habs, Hsafe; simpl negb; cbv iota.
      unfold bind at 1. fold res. rewrite Hres. cbn [fst snd]. now rewrite Hc.
  - right; right.
    destruct (String.eqb_spec out "") as [He|Hne].
    + left; repeat split; try assumption.
      unfold lsTreeUncached, CombinedOutput.
      rewrite Habs, Hsafe; simpl negb; cbv iota.
      unfold bind at 1. fold res. rewrite Hres. cbn [fst snd]. subst out.
      reflexivity.
    + right; repeat split; try assumption.
      now apply lsTreeUncached_listing.
Qed.

(** ** Which subprocesses a listing starts *)

Lemma translateMode_log (r : Repository) (typ oid name : string) (mode : Z) :
  Forall (fun i => isReadFile i = false) (snd (translateMode r typ oid name mode)).
Proof.
  unfold translateMode, Output, bind, ret.
  destruct (typ =? "blob")%string.
  - destruct (negb (Z.land mode gitModeSymlink =? 0)); constructor.
  - destruct (typ =? "commit")%string; [repeat constructor|].
    destruct (typ =? "tree")%string; constructor.
Qed.

Lemma parseRecord_log (r : Repository) (out trimPath : string) (prefixLen : Z)
      (meta name0 : string) :
  Forall (fun i => isReadFile i = false)
         (snd (parseRecord r out trimPath prefixLen meta name0)).
Proof.
  unfold parseRecord.
  destruct (SplitN meta SPACE 4) as [|modeStr [|typ [|oid [|size3 [|x l]]]]];
    try constructor.
  destruct (IsAbsoluteRevision oid); simpl negb; cbv iota; [|constructor].
  destruct (parseSize_cases (TrimSpace size3)) as [(size & Hsz & _)|Hsz];
    rewrite Hsz; [|constructor].
  unfold bind at 1; unfold ret at 1.
  destruct (ParseInt modeStr 8 32) as [raw|]; [|constructor].
  pose proof (translateMode_log r typ oid
                (if len name0 <? len trimPath then trimPath else name0) raw) as Hl.
  destruct (translateMode _ _ _ _ _) as [[ms|e] log']; unfold bind; simpl in *.
  - destruct (sliceFrom _ _); simpl; now rewrite app_nil_r.
  - assumption.
Qed.

Lemma parseLine_log (r : Repository) (out trimPath : string) (prefixLen : Z)
      (line : string) :
  Forall (fun i => isReadFile i = false)
         (snd (parseLine r out trimPath prefixLen line)).
Proof.
  unfold parseLine.
  destruct (IndexByte line TAB =? -1); [constructor|].
  destruct (sliceTo _ _); [|constructor].
  destruct (sliceFrom _ _); [|constructor].
  apply parseRecord_log.
Qed.

Lemma parseLines_log (r : Repository) (out trimPath : string) (prefixLen : Z)
      (lines : list string) :
  Forall (fun i => isReadFile i = false)
         (snd (parseLines r out trimPath prefixLen lines)).
Proof.
  induction lines as [|line rest IH]; simpl; [constructor|].
  pose proof (parseLine_log r out trimPath prefixLen line) as Hl.
  destruct (parseLine r out trimPath prefixLen line) as [[fi|e] l1];
    unfold bind; simpl in *; [|assumption].
  destruct (parseLines r out trimPath prefixLen rest) as [[fis|e] l2];
    simpl in *; rewrite ?app_nil_r; apply Forall_app; auto.
Qed.

Lemma lsTreeUncached_log (r : Repository) (commit path : string) (recurse : bool) :
  Forall (fun i => isReadFile i = false)
         (snd (lsTreeUncached r commit path recurse)).
Proof.
  unfold lsTreeUncached.
  destruct (ensureAbsCommit commit); simpl negb; cbv iota; [|constructor].
  destruct (checkSpecArgSafety path); [constructor|].
  unfold CombinedOutput, bind at 1.
  destruct (runCombined _ _) as [out [err|]]; cbn [fst snd].
  - destruct (Contains out _); repeat constructor.
  - destruct (out =? "")%string; [repeat constructor|].
    pose proof (parseLines_log r out (TrimPrefix path "./")
                  (LastIndexByte (TrimPrefix path "./") SLASH + 1)
                  (removelast (Split out NUL))) as Hl.
    destruct (parseLines _ _ _ _ _) as [[fis|e] log]; unfold bind; simpl in *;
      rewrite ?app_nil_r; constructor; auto.
Qed.

(** ** The cache wrapper and the facade *)

Lemma Clean_nonempty (p : string) : Clean p <> EmptyString.
Proof.
  unfold Clean. destruct p as [|c p]; [discriminate|]. cbv zeta.
  destruct (byte_eqb c "/"); [discriminate|].
  match goal with
  | |- (if (?b =? "")%string then _ else _) <> _ =>
      destruct (String.eqb_spec b ""); [discriminate|assumption]
  end.
Qed.

(** Only the recursive listing of the root goes through the cache. *)
Lemma lsTree_bypass (slow : bool) (r : Repository) (commit path : string)
      (recurse : bool) (s : State) :
  path <> EmptyString \/ recurse = false ->
  lsTree slow r commit path recurse s
  = liftExec (lsTreeUncached r commit path recurse) s.
Proof.
  intros H; unfold lsTree.
  destruct (String.eqb_spec path "") as [He|Hne]; destruct recurse;
    simpl; try reflexivity.
  destruct H; [contradiction|discriminate].
Qed.

(** [Lstat] on a path other than the root, the guard passed. *)
Lemma Lstat_listing (r : Repository) (commit path : string) (s : State) :
  checkSpecArgSafety commit = None ->
  Clean (Rel path) <> "." ->
  Lstat r commit path s
  = (match fst (lsTreeUncached r commit (Clean (Rel path)) false) with
     | Ok [] => Err (PathError "ls-tree" (Clean (Rel path)))
     | Ok (fi :: _) => Ok fi
     | Err e => Err e
     end,
     mkState (lsTreeRootCache s)
             (invocations s
                ++ snd (lsTreeUncached r commit (Clean (Rel path)) false))).
Proof.
  intros Hsafe Hroot; unfold Lstat. rewrite Hsafe.
  destruct (String.eqb_spec (Clean (Rel path)) "."); [contradiction|].
  unfold bindM. rewrite lsTree_bypass by (now right).
  unfold liftExec.
  destruct (lsTreeUncached r commit (Clean (Rel path)) false) as [[[|fi fis]|e] log];
    reflexivity.
Qed.

Lemma Lstat_root (r : Repository) (commit path : string) (s : State) :
  checkSpecArgSafety commit = None ->
  Clean (Rel path) = "." ->
  Lstat r commit path s = (Ok (mkFileInfo "" ModeDir 0 None), s).
Proof.
  intros Hsafe Hroot; unfold Lstat. rewrite Hsafe, Hroot. reflexivity.
Qed.

Lemma Lstat_unsafe (r : Repository) (commit path msg : string) (s : State) :
  checkSpecArgSafety commit = Some msg ->
  Lstat r commit path s = (Err (UnsafeArgumentError msg), s).
Proof. intros H; unfold Lstat; now rewrite H. Qed.

(** What [Lstat] returns does not depend on the state it is called in, and
    it leaves the cache alone. *)
Lemma Lstat_state (r : Repository) (commit path : string) (s : State) :
  exists log,
    snd (Lstat r commit path s)
    = mkState (lsTreeRootCache s) (invocations s ++ log)
    /\ (forall s', fst (Lstat r commit path s') = fst (Lstat r commit path s))
    /\ Forall (fun i => isReadFile i = false) log.
Proof.
  destruct (checkSpecArgSafety commit) as [msg|] eqn:Hsafe.
  - exists []. repeat split.
    + rewrite (Lstat_unsafe _ _ _ _ _ Hsafe). destruct s; simpl.
      now rewrite app_nil_r.
    + intros s'. now rewrite !(Lstat_unsafe _ _ _ _ _ Hsafe).
    + constructor.
  - destruct (string_dec (Clean (Rel path)) ".") as [Hroot|Hroot].
    + exists []. repeat split.
      * rewrite (Lstat_root _ _ _ _ Hsafe Hroot). destruct s; simpl.
        now rewrite app_nil_r.
      * intros s'. now rewrite !(Lstat_root _ _ _ _ Hsafe Hroot).
      * constructor.
    + exists (snd (lsTreeUncached r commit (Clean (Rel path)) false)).
      repeat split.
      * now rewrite (Lstat_listing _ _ _ _ Hsafe Hroot).
      * intros s'. now rewrite !(Lstat_listing _ _ _ _ Hsafe Hroot).
      * apply lsTreeUncached_log.
Qed.

Lemma filter_none {A : Type} (f : A -> bool) (l : list A) :
  Forall (fun x => f x = false) l -> filter f l = [].
Proof.
  induction 1 as [|x l Hx _ IH]; simpl; [reflexivity|now rewrite Hx].
Qed.

(** [Stat] on a symlink whose content names a path that [Lstat] resolves:
    the result is that second entry under the first entry's name, and the
    content of exactly one object was read. *)
Lemma Stat_deref (r : Repository) (commit path b : string) (s : State)
      (fi fi2 : FileInfo) :
  fst (Lstat r commit (Rel path) s) = Ok fi ->
  IsSymlink (Mode_ fi) = true ->
  fileContent (repoURI r) commit (Rel path) = Ok b ->
  fst (Lstat r commit b s) = Ok fi2 ->
  exists log,
    Stat r commit path s
    = (Ok (mkFileInfo (Name_ fi) (Mode_ fi2) (Size_ fi2) (Sys_ fi2)),
       mkState (lsTreeRootCache s) (invocations s ++ log))
    /\ List.length (filter isReadFile log) = 1%nat.
Proof.
  intros H1 Hsym Hfile H2.
  destruct (checkSpecArgSafety commit) as [msg|] eqn:Hsafe.
  { rewrite (Lstat_unsafe _ _ _ _ _ Hsafe) in H1; discriminate. }
  unfold Stat; rewrite Hsafe; unfold bindM.
  destruct (Lstat_state r commit (Rel path) s) as (log1 & Hs1 & _ & Hl1).
  destruct (Lstat r commit (Rel path) s) as [res1 s1]; simpl in H1, Hs1.
  subst res1 s1.
  unfold IsSymlink in Hsym; rewrite Hsym.
  unfold liftExec, readFileBytes; cbn [fst snd lsTreeRootCache invocations].
  rewrite Hfile.
  set (s2 := mkState (lsTreeRootCache s)
                     ((invocations s ++ log1)
                        ++ [ReadFileBytes (repoURI r) commit (Rel path)])).
  destruct (Lstat_state r commit b s) as (_ & _ & Hindep & _).
  destruct (Lstat_state r commit b s2) as (log2 & Hs2 & _ & Hl2).
  specialize (Hindep s2). rewrite H2 in Hindep.
  destruct (Lstat r commit b s2) as [res2 s3]; simpl in Hindep, Hs2.
  subst res2 s3. unfold retM.
  exists (log1 ++ [ReadFileBytes (repoURI r) commit (Rel path)] ++ log2).
  split.
  - unfold s2; simpl. now rewrite <- !app_assoc.
  - rewrite !filter_app, (filter_none _ _ Hl1), (filter_none _ _ Hl2).
    reflexivity.
Qed.

(** ** The claims *)

(** C3 -- Symlink resolution.  For every commit and path: when [Lstat]
    classifies the entry at the path as a symlink, the link's content is
    read and [Lstat] resolves the path it holds, [Stat] returns an entry
    whose name is the name of the entry first asked for (not the name of
    the target) and whose mode and size are those of the entry that the
    second [Lstat] returns. *)
Theorem Stat_resolves_symlink (r : Repository) (commit path target : string)
        (s : State) (link resolved : FileInfo) :
  fst (Lstat r commit (Rel path) s) = Ok link ->
  IsSymlink (Mode_ link) = true ->
  fst (readFileBytes r commit (Rel path)) = Ok target ->
  fst (Lstat r commit target s) = Ok resolved ->
  exists fi,
    fst (Stat r commit path s) = Ok fi
    /\ Name_ fi = Name_ link
    /\ Mode_ fi = Mode_ resolved
    /\ Size_ fi = Size_ resolved.
Proof.
  intros H1 Hsym Hfile H2.
  destruct (Stat_deref r commit path target s link resolved H1 Hsym Hfile H2)
    as (log & Heq & _).
  rewrite Heq. eexists; repeat split.
Qed.

(** C10 -- One level of dereferencing.  When the path read from a symlink
    is itself a symlink, [Stat] returns that second entry, still of
    symlink mode, under the name first asked for; it reads the content of
    one object only and follows the chain no further. *)
Theorem Stat_follows_one_link (r : Repository) (commit path target : string)
        (s : State) (link second : FileInfo) :
  fst (Lstat r commit (Rel path) s) = Ok link ->
  IsSymlink (Mode_ link) = true ->
  fst (readFileBytes r commit (Rel path)) = Ok target ->
  fst (Lstat r commit target s) = Ok second ->
  IsSymlink (Mode_ second) = true ->
  fst (Stat r commit path s)
  = Ok (mkFileInfo (Name_ link) (Mode_ second) (Size_ second) (Sys_ second))
  /\ IsSymlink (Mode_ second) = true
  /\ exists log,
       invocations (snd (Stat r commit path s)) = invocations s ++ log
       /\ List.length (filter isReadFile log) = 1%nat.
Proof.
  intros H1 Hsym Hfile H2 Hsym2.
  destruct (Stat_deref r commit path target s link second H1 Hsym Hfile H2)
    as (log & Heq & Hcount).
  rewrite Heq; repeat split; try assumption.
  exists log; auto.
Qed.

(** C4 (amended) -- Not-found conditions.  The tree listing fails with a
    not-found error exactly when the subprocess was run and either exited
    with an error whose output says the path "exists on disk, but not in"
    the commit, or exited normally with an entirely empty output.  [Lstat],
    on a path other than the root, fails with a not-found error when the
    non-recursive listing returns zero entries and otherwise returns the
    first entry. *)
Theorem not_found_conditions (r : Repository) (commit path : string)
        (recurse : bool) :
  ((exists e, fst (lsTreeUncached r commit path recurse) = Err e
              /\ isNotFound e = true)
   <-> (ensureAbsCommit commit = true /\ checkSpecArgSafety path = None
        /\ let res := runCombined (repoURI r) (lsTreeArgs commit path recurse) in
           (snd res <> None
            /\ Contains (fst res) "exists on disk, but not in" = true)
           \/ (snd res = None /\ fst res = EmptyString)))
  /\ (forall s : State,
         checkSpecArgSafety commit = None ->
         Clean (Rel path) <> "." ->
         match fst (lsTreeUncached r commit (Clean (Rel path)) false) with
         | Ok [] =>
             exists e, fst (Lstat r commit path s) = Err e /\ isNotFound e = true
         | Ok (first :: _) => fst (Lstat r commit path s) = Ok first
         | Err e => fst (Lstat r commit path s) = Err e
         end).
Proof.
  split.
  - pose proof (lsTreeUncached_cases r commit path recurse) as Hc.
    cbv zeta in Hc |- *.
    destruct (runCombined (repoURI r) (lsTreeArgs commit path recurse))
      as [out err]; cbn [fst snd] in *.
    split.
    + intros (e & He & Hnf).
      destruct Hc as [(_ & H)|[(_ & msg & _ & H)|[(Ha & Hs & err' & -> & Hct & H)
        |[(_ & _ & err' & _ & _ & H)|[(Ha & Hs & -> & -> & H)
        |(Ha & Hs & -> & Hne & H)]]]]].
      * rewrite H in He; inversion He; subst; discriminate.
      * rewrite H in He; inversion He; subst; discriminate.
      * repeat split; auto. left; split; [discriminate|assumption].
      * rewrite H in He; inversion He; subst; discriminate.
      * repeat split; auto.
      * exfalso. rewrite H in He.
        destruct (parseLines r out (TrimPrefix path "./")
                    (LastIndexByte (TrimPrefix path "./") SLASH + 1)
                    (removelast (Split out NUL))) as [[fis|e'] log] eqn:Hp;
          cbn [fst] in He; [discriminate|].
        inversion He; subst e'.
        destruct (parseLines_err _ _ _ _ _ _ _ Hp) as (line & log' & _ & Hl).
        apply parseLine_err_malformed in Hl.
        destruct e; discriminate.
    + intros (Ha & Hs & Hcond).
      destruct Hc as [(Ha' & _)|[(_ & msg & Hs' & _)|[(_ & _ & err' & _ & _ & H)
        |[(_ & _ & err' & -> & Hct & _)|[(_ & _ & _ & _ & H)
        |(_ & _ & -> & Hne & _)]]]]]; try congruence.
      * eexists; split; [exact H|reflexivity].
      * destruct Hcond as [[_ Hc]|[Hc _]]; congruence.
      * eexists; split; [exact H|reflexivity].
      * destruct Hcond as [[Hc _]|[_ Hc]]; congruence.
  - intros s Hsafe Hroot.
    rewrite (Lstat_listing _ _ _ _ Hsafe Hroot); cbn [fst].
    destruct (fst (lsTreeUncached r commit (Clean (Rel path)) false))
      as [[|first rest]|e]; try reflexivity.
    eexists; split; reflexivity.
Qed.

(** C5 -- Malformed-output rejection.  When the subprocess exits normally
    and some record of its output is defective (no tab; fewer than four
    fields before the tab; an object id that is not an absolute revision; a
    size column that is neither the dash nor a non-negative integer), the
    listing returns no entries but an error, and the error is a
    malformed-output error. *)
Theorem malformed_output_rejected (r : Repository) (commit path : string)
        (recurse : bool) (out line : string) :
  ensureAbsCommit commit = true ->
  checkSpecArgSafety path = None ->
  runCombined (repoURI r) (lsTreeArgs commit path recurse) = (out, None) ->
  In line (removelast (Split out NUL)) ->
  defective line ->
  exists e, fst (lsTreeUncached r commit path recurse) = Err e
            /\ isMalformedOutput e = true.
Proof.
  intros Habs Hsafe Hrun Hin Hdef.
  assert (out <> EmptyString) as Hne by (intros ->; simpl in Hin; contradiction).
  rewrite (lsTreeUncached_listing _ _ _ _ _ Habs Hsafe Hrun Hne).
  set (trimPath := TrimPrefix path "./") in *.
  destruct (parseLine_defective r out trimPath
              (LastIndexByte trimPath SLASH + 1) line Hdef) as (e0 & He0 & _).
  destruct (parseLines_rejects _ _ _ _ _ _ _ _ Hin He0) as (e & log & Hp).
  rewrite Hp; cbn [fst]. exists e; split; [reflexivity|].
  destruct (parseLines_err _ _ _ _ _ _ _ Hp) as (line' & log' & _ & Hl).
  now apply parseLine_err_malformed in Hl.
Qed.

(** C6 -- The argument guard precedes execution.  [Lstat], [Stat] and
    [ReadDir] check the commit identifier first: for a commit id that the
    guard rejects each of them returns the guard's UnsafeArgumentError and
    leaves the state as it was, so that no subprocess has been started. *)
Theorem guard_precedes_execution (r : Repository) (commit path msg : string)
        (recurse slow : bool) (s : State) :
  checkSpecArgSafety commit = Some msg ->
  (Lstat r commit path s = (Err (UnsafeArgumentError msg), s)
   /\ Stat r commit path s = (Err (UnsafeArgumentError msg), s)
   /\ ReadDir slow r commit path recurse s = (Err (UnsafeArgumentError msg), s))
  /\ invocations (snd (Lstat r commit path s)) = invocations s
  /\ invocations (snd (Stat r commit path s)) = invocations s
  /\ invocations (snd (ReadDir slow r commit path recurse s)) = invocations s.
Proof.
  intros H. unfold Lstat, Stat, ReadDir, raiseM. rewrite H. repeat split.
Qed.

(** ** Mode bits *)







Lemma parseSize_ok (field : string) :
  sizeFieldOK field -> exists size, parseSize (TrimSpace field) = ret size /\ 0 <= size.
Proof.
  intros [Hd|(n & Hp & Hn)]; unfold parseSize.
  - rewrite Hd. exists 0; split; [reflexivity|lia].
  - destruct (TrimSpace field =? "-")%string; [exists 0; split; [reflexivity|lia]|].
    rewrite Hp. destruct (Z.ltb_spec n 0); [lia|]. exists n; auto.
Qed.

(** A well-formed record is turned into an entry. *)
Lemma parseRecord_ok (r : Repository) (out trimPath : string)
      (modeStr typ oid size3 name0 : string) (raw : Z) :
  countByte SPACE modeStr = O -> countByte SPACE typ = O ->
  countByte SPACE oid = O ->
  ParseInt modeStr 8 32 = Some raw ->
  IsAbsoluteRevision oid = true ->
  sizeFieldOK size3 ->
  exists ms log nm size,
    translateMode r typ oid
      (if len name0 <? len trimPath then trimPath else name0) raw = (Ok ms, log)
    /\ sliceFrom (if len name0 <? len trimPath then trimPath else name0)
                 (Z.to_nat (LastIndexByte trimPath SLASH + 1)) = Some nm
    /\ parseSize (TrimSpace size3) = ret size /\ 0 <= size
    /\ parseRecord r out trimPath (LastIndexByte trimPath SLASH + 1)
                   (metaBlock modeStr typ oid size3) name0
       = (Ok (mkFileInfo nm (FileMode (fst ms)) size (snd ms)), log).
Proof.
  intros Hm Ht Ho Hmode Habs Hsize.
  destruct (translateMode_total r typ oid
              (if len name0 <? len trimPath then trimPath else name0) raw)
    as (ms & log & Htm).
  destruct (name_slice_in_range trimPath name0) as (nm & Hnm).
  destruct (parseSize_ok _ Hsize) as (size & Hsz & Hpos).
  exists ms, log, nm, size. repeat split; try assumption.
  unfold parseRecord.
  rewrite (SplitN_metaBlock _ _ _ size3 Hm Ht Ho), Habs; simpl negb; cbv iota.
  rewrite Hsz. unfold bind at 1; unfold ret at 1. rewrite Hmode, Htm.
  unfold bind. rewrite Hnm. unfold ret. now rewrite app_nil_r.
Qed.


(** ** Records *)






Lemma removelast_length {A : Type} (l : list A) :
  List.length (removelast l) = (List.length l - 1)%nat.
Proof.
  induction l as [|a [|b l] IH]; simpl in *; try reflexivity.
  rewrite IH. lia.
Qed.

(** A successful listing: the subprocess exited normally with some
    output, every record but the last piece was parsed, and the entries
    were sorted. *)
Lemma lsTreeUncached_ok_inv (r : Repository) (commit path : string)
      (recurse : bool) (fis : list FileInfo) :
  fst (lsTreeUncached r commit path recurse) = Ok fis ->
  exists out entries log,
    runCombined (repoURI r) (lsTreeArgs commit path recurse) = (out, None)
    /\ out <> EmptyString
    /\ parseLines r out (TrimPrefix path "./")
                  (LastIndexByte (TrimPrefix path "./") SLASH + 1)
                  (removelast (Split out NUL)) = (Ok entries, log)
    /\ fis = SortFileInfosByName entries.
Proof.
  intros H.
  pose proof (lsTreeUncached_cases r commit path recurse) as Hc.
  cbv zeta in Hc.
  destruct (runCombined (repoURI r) (lsTreeArgs commit path recurse))
    as [out err]; cbn [fst snd] in *.
  destruct Hc as [(_ & E)|[(_ & msg & _ & E)|[(_ & _ & err' & _ & _ & E)
    |[(_ & _ & err' & _ & _ & E)|[(_ & _ & _ & _ & E)
    |(_ & _ & -> & Hne & E)]]]]];
    try (rewrite E in H; discriminate).
  rewrite E in H.
  destruct (parseLines r out _ _ _) as [[entries|e] log] eqn:Hp;
    cbn [fst] in H; [|discriminate].
  inversion H; subst. exists out, entries, log. auto.
Qed.

Lemma parseLine_entry (r : Repository) (out path line : string)
      (fi : FileInfo) (log : list invocation) :
  parseLine r out (TrimPrefix path "./")
            (LastIndexByte (TrimPrefix path "./") SLASH + 1) line = (Ok fi, log) ->
  entryOfRecord r out path line fi.
Proof.
  intros H.
  destruct (Z.eq_dec (IndexByte line TAB) (-1)) as [Hno|Htab].
  - rewrite (parseLine_no_tab _ _ _ _ _ Hno) in H. discriminate.
  - destruct (parseLine_tab r out (TrimPrefix path "./")
                (LastIndexByte (TrimPrefix path "./") SLASH + 1) line Htab)
      as (meta & recPath & Hl & Hm & Heq).
    exists meta, recPath, log. rewrite <- Heq. auto.
Qed.

(** The entries of a successful listing, record by record. *)
Lemma lsTreeUncached_entries (r : Repository) (commit path : string)
      (recurse : bool) (fis : list FileInfo) :
  fst (lsTreeUncached r commit path recurse) = Ok fis ->
  exists out entries,
    runCombined (repoURI r) (lsTreeArgs commit path recurse) = (out, None)
    /\ out <> EmptyString
    /\ Forall2 (entryOfRecord r out path) (removelast (Split out NUL)) entries
    /\ fis = SortFileInfosByName entries.
Proof.
  intros H.
  destruct (lsTreeUncached_ok_inv _ _ _ _ _ H)
    as (out & entries & log & Hrun & Hne & Hp & Hs).
  exists out, entries. repeat split; try assumption.
  apply parseLines_ok in Hp.
  eapply Forall2_impl; [|exact Hp].
  intros line fi (log' & Hl). eapply parseLine_entry; eassumption.
Qed.

(** The name of the entry built from a record. *)
Lemma entry_name (r : Repository) (out path line : string) (fi : FileInfo)
      (dir base : string) :
  entryOfRecord r out path line fi ->
  TrimPrefix path "./" = (dir ++ base)%string ->
  len dir = LastIndexByte (TrimPrefix path "./") SLASH + 1 ->
  exists meta recPath,
    line = (meta ++ String TAB recPath)%string
    /\ IndexByte meta TAB = -1
    /\ nameDerived (TrimPrefix path "./") dir base recPath (Name_ fi).
Proof.
  intros (meta & recPath & log & Hl & Hm & Hrec) Hcut Hlen.
  exists meta, recPath. repeat split; try assumption.
  - intros Hroot.
    destruct (parseRecord_ok_inv _ _ _ _ _ _ _ _ Hrec)
      as (m & t & o & z & raw & ms & lg & _ & _ & _ & _ & _ & Hname & _).
    rewrite Hroot in Hname. simpl in Hname.
    pose proof (len_nonneg recPath).
    destruct (Z.ltb_spec (len recPath) (len "")); [unfold len in *; simpl in *; lia|].
    simpl in Hname. now inversion Hname.
  - intros Hlong.
    destruct (parseRecord_ok_inv _ _ _ _ _ _ _ _ Hrec)
      as (m & t & o & z & raw & ms & lg & _ & _ & _ & _ & _ & Hname & _).
    destruct (Z.ltb_spec (len recPath) (len (TrimPrefix path "./"))); [lia|].
    destruct (sliceFrom_inv _ _ _ Hname) as (pre & Hpre & Hplen).
    exists pre; split; [assumption|].
    rewrite Hlen. unfold len. rewrite Hplen.
    pose proof (LastIndexByte_bounds (TrimPrefix path "./") SLASH). lia.
  - intros Hshort.
    destruct (parseRecord_ok_inv _ _ _ _ _ _ _ _ Hrec)
      as (m & t & o & z & raw & ms & lg & _ & _ & _ & _ & _ & Hname & _).
    destruct (Z.ltb_spec (len recPath) (len (TrimPrefix path "./"))); [|lia].
    rewrite <- Hlen in Hname. rewrite Hcut in Hname.
    replace (Z.to_nat (len dir)) with (String.length dir) in Hname
      by (unfold len; lia).
    rewrite sliceFrom_append in Hname. now inversion Hname.
Qed.

(** C8 (amended) -- Name derivation.  In a successful listing, writing the
    queried path (a leading "./" dropped) as [dir ++ base] with [base] its
    final segment: at the root every entry is named by the full path of
    its record; otherwise an entry is named by the path of its record
    without its first [len dir] bytes, that is by what follows the
    position of the queried path's last '/'; and when the path of a record
    is shorter than the queried path, the queried path takes its place
    before the same trimming, so that the entry is named [base], the final
    segment of the queried path. *)
Theorem name_derivation (r : Repository) (commit path : string)
        (recurse : bool) (fis : list FileInfo) :
  fst (lsTreeUncached r commit path recurse) = Ok fis ->
  exists out entries dir base,
    runCombined (repoURI r) (lsTreeArgs commit path recurse) = (out, None)
    /\ Permutation entries fis
    /\ TrimPrefix path "./" = (dir ++ base)%string
    /\ IndexByte base SLASH = -1
    /\ (dir = EmptyString \/ exists d, dir = (d ++ "/")%string)
    /\ Forall2 (fun line fi =>
                  exists meta recPath,
                    line = (meta ++ String TAB recPath)%string
                    /\ IndexByte meta TAB = -1
                    /\ nameDerived (TrimPrefix path "./") dir base recPath (Name_ fi))
               (removelast (Split out NUL)) entries.
Proof.
  intros H.
  destruct (lsTreeUncached_entries _ _ _ _ _ H)
    as (out & entries & Hrun & _ & Hall & Hs).
  destruct (LastIndexByte_cut (TrimPrefix path "./") SLASH)
    as (dir & base & Hcut & Hlen & Hbase & Hdir).
  exists out, entries, dir, base. repeat split; try assumption.
  - subst fis. apply FileInfoSort.Permuted_sort.
  - eapply Forall2_impl; [|exact Hall].
    intros line fi He. eapply entry_name; eassumption.
Qed.


(** ** The order on names *)









(** ** The cache *)

Lemma lookup_In (key : string) (c : lru.Cache) (v : list FileInfo) :
  lru.lookup key c = Some v -> In (key, v) c.
Proof.
  induction c as [|[k w] c IH]; simpl; [discriminate|].
  destruct (String.eqb_spec k key) as [->|Hne].
  - intros H; inversion H; now left.
  - intros H; right; auto.
Qed.

Lemma remove_In (key : string) (c : lru.Cache) (x : string * list FileInfo) :
  In x (lru.remove key c) -> In x c.
Proof.
  induction c as [|[k w] c IH]; simpl; [auto|].
  destruct (k =? key)%string; simpl; intuition.
Qed.

Lemma removelast_In {A : Type} (l : list A) (x : A) :
  In x (removelast l) -> In x l.
Proof.
  induction l as [|a [|b l] IH]; simpl in *; intuition.
Qed.

Lemma Get_In (key : string) (c : lru.Cache) (x : string * list FileInfo) :
  In x (snd (lru.Get key c)) -> In x c.
Proof.
  unfold lru.Get. destruct (lru.lookup key c) as [v|] eqn:Hl; simpl; [|auto].
  intros [<-|H]; [now apply lookup_In|eapply remove_In; eassumption].
Qed.

Lemma Get_hit (key : string) (c : lru.Cache) (v : list FileInfo) :
  fst (lru.Get key c) = Some v -> In (key, v) c.
Proof.
  unfold lru.Get. destruct (lru.lookup key c) as [w|] eqn:Hl; simpl;
    [|discriminate].
  intros H; inversion H; subst. now apply lookup_In.
Qed.

Lemma Add_In (key : string) (v : list FileInfo) (c : lru.Cache)
      (x : string * list FileInfo) :
  In x (lru.Add key v c) -> x = (key, v) \/ In x c.
Proof.
  unfold lru.Add. destruct (lru.lookup key c) as [w|].
  - intros [<-|H]; [now left|right; eapply remove_In; eassumption].
  - destruct (lru.MaxEntries <? List.length ((key, v) :: c))%nat.
    + intros H. apply removelast_In in H. destruct H as [<-|H]; auto.
    + intros [<-|H]; auto.
Qed.

(** The shape of request that goes through the cache. *)
Lemma cached_shape (path : string) (recurse : bool) :
  negb (path =? "")%string || negb recurse = false ->
  path = EmptyString /\ recurse = true.
Proof.
  destruct (String.eqb_spec path ""); destruct recurse; simpl; try discriminate.
  auto.
Qed.

(** A listing through the cache is either a stored one or the uncached
    listing of the request. *)
Lemma lsTree_result (slow : bool) (r : Repository) (commit path : string)
      (recurse : bool) (s : State) :
  fst (lsTree slow r commit path recurse s)
  = fst (lsTreeUncached r commit path recurse)
  \/ (path = EmptyString /\ recurse = true
      /\ exists v, In (cacheKey r commit "", v) (lsTreeRootCache s)
                   /\ fst (lsTree slow r commit path recurse s) = Ok v).
Proof.
  unfold lsTree.
  destruct (negb (path =? "")%string || negb recurse) eqn:Hshape; [now left|].
  destruct (cached_shape _ _ Hshape) as [-> ->].
  destruct (lru.Get (cacheKey r commit "") (lsTreeRootCache s)) as [[v|] c] eqn:Hg.
  - right; repeat split. exists v; split; [|reflexivity].
    apply Get_hit. now rewrite Hg.
  - left. unfold liftExec; cbn [fst snd].
    destruct (lsTreeUncached r commit "" true) as [[entries|e] log]; cbn [fst];
      [|reflexivity].
    destruct (slow && (5000 <? Z.of_nat (List.length entries))); reflexivity.
Qed.

Lemma lsTree_faithful (slow : bool) (r : Repository) (commit path : string)
      (recurse : bool) (s : State) :
  cacheFaithful (lsTreeRootCache s) ->
  cacheFaithful (lsTreeRootCache (snd (lsTree slow r commit path recurse s))).
Proof.
  intros Hf. unfold lsTree.
  destruct (negb (path =? "")%string || negb recurse) eqn:Hshape; [exact Hf|].
  destruct (cached_shape _ _ Hshape) as [-> ->].
  pose proof (Get_In (cacheKey r commit "") (lsTreeRootCache s)) as Hget.
  destruct (lru.Get (cacheKey r commit "") (lsTreeRootCache s)) as [[v|] c];
    cbn [snd] in Hget.
  - cbn [snd lsTreeRootCache]. intros key w Hin. apply Hf. now apply Hget.
  - unfold liftExec; cbn [fst snd lsTreeRootCache invocations].
    destruct (lsTreeUncached r commit "" true) as [[entries|e] log] eqn:Hu;
      cbn [fst snd lsTreeRootCache].
    + destruct (slow && (5000 <? Z.of_nat (List.length entries)));
        cbn [snd lsTreeRootCache]; intros key w Hin.
      * apply Add_In in Hin. destruct Hin as [Heq|Hin].
        -- inversion Heq; subst. exists r, commit. now rewrite Hu.
        -- apply Hf. now apply Hget.
      * apply Hf. now apply Hget.
    + intros key w Hin. apply Hf. now apply Hget.
Qed.

Lemma Lstat_cache (r : Repository) (commit path : string) (s : State) :
  lsTreeRootCache (snd (Lstat r commit path s)) = lsTreeRootCache s.
Proof.
  destruct (Lstat_state r commit path s) as (log & -> & _). reflexivity.
Qed.

Lemma Stat_cache (r : Repository) (commit path : string) (s : State) :
  lsTreeRootCache (snd (Stat r commit path s)) = lsTreeRootCache s.
Proof.
  unfold Stat. destruct (checkSpecArgSafety commit); [reflexivity|].
  unfold bindM.
  pose proof (Lstat_cache r commit (Rel path) s) as H1.
  destruct (Lstat r commit (Rel path) s) as [[fi|e] s1]; cbn [snd] in *;
    [|assumption].
  destruct (negb (Z.land (Mode_ fi) ModeSymlink =? 0)); [|assumption].
  unfold liftExec, readFileBytes; cbn [fst snd].
  destruct (fileContent (repoURI r) commit (Rel path)) as [b|e];
    cbn [snd lsTreeRootCache]; [|assumption].
  match goal with
  | |- lsTreeRootCache (snd (match Lstat r commit b ?s2 with _ => _ end)) = _ =>
      pose proof (Lstat_cache r commit b s2) as H2;
      destruct (Lstat r commit b s2) as [[fi2|e2] s3]
  end; unfold retM; simpl in *; congruence.
Qed.

(** Whatever the process has done, the cache holds only listings that the
    uncached root listing returned. *)
Lemma reachable_faithful (s : State) :
  reachable s -> cacheFaithful (lsTreeRootCache s).
Proof.
  induction 1 as [|s slow r commit path recurse _ IH|s r commit path _ IH
                  |s r commit path _ IH|s slow r commit path recurse _ IH].
  - intros key v [].
  - now apply lsTree_faithful.
  - now rewrite Lstat_cache.
  - now rewrite Stat_cache.
  - unfold ReadDir. destruct (checkSpecArgSafety commit); [exact IH|].
    now apply lsTree_faithful.
Qed.



(** ** Cache transparency under unambiguous keys *)

Lemma append_inj_length (s1 s2 t1 t2 : string) :
  (s1 ++ t1)%string = (s2 ++ t2)%string ->
  String.length t1 = String.length t2 ->
  s1 = s2 /\ t1 = t2.
Proof.
  revert s2; induction s1 as [|a s1 IH]; intros [|b s2] Heq Hlen; simpl in *.
  - auto.
  - exfalso. subst t1. simpl in Hlen. rewrite length_append in Hlen. lia.
  - exfalso. subst t2. simpl in Hlen. rewrite length_append in Hlen. lia.
  - inversion Heq; subst. destruct (IH _ H1 Hlen) as [-> ->]. auto.
Qed.

(** Two root requests whose commit ids have the same length (as absolute
    revisions do) have the same key only if they are the same request. *)
Lemma cacheKey_inj (r r' : Repository) (commit commit' : string) :
  String.length commit = String.length commit' ->
  cacheKey r commit "" = cacheKey r' commit' "" ->
  r = r' /\ commit = commit'.
Proof.
  unfold cacheKey. intros Hlen Heq.
  apply append_inj_length in Heq.
  - destruct Heq as [Hr Hc]. destruct r, r'; simpl in *. subst.
    inversion Hc as [Hc'].
    apply (append_inj_length commit commit' ":" ":") in Hc'; [|reflexivity].
    destruct Hc' as [-> _]. auto.
  - simpl. rewrite !length_append. simpl. lia.
Qed.

(** When no other request shares the key of the request at hand, the
    cached function returns what the uncached one returns. *)
Lemma lsTree_transparent (slow : bool) (r : Repository) (commit path : string)
      (recurse : bool) (s : State) :
  reachable s ->
  (forall r' commit', cacheKey r' commit' "" = cacheKey r commit "" ->
                      r' = r /\ commit' = commit) ->
  fst (lsTree slow r commit path recurse s)
  = fst (lsTreeUncached r commit path recurse).
Proof.
  intros Hreach Hkey.
  destruct (lsTree_result slow r commit path recurse s)
    as [Heq|(-> & -> & v & Hin & Hv)]; [assumption|].
  rewrite Hv.
  destruct (reachable_faithful s Hreach _ _ Hin) as (r' & commit' & Hk & Hu).
  destruct (Hkey r' commit' (eq_sym Hk)) as [-> ->]. now rewrite Hu.
Qed.

(** ** A listing that the cache admits, and what a shared key does *)

Lemma Split_record (line rest : string) (sep : ascii) :
  IndexByte line sep = -1 ->
  Split (line ++ String sep rest)%string sep = line :: Split rest sep.
Proof.
  induction line as [|a line IH]; simpl; intros Hno.
  - now rewrite byte_eqb_refl.
  - destruct (byte_eqb a sep); [discriminate|].
    destruct (Z.ltb_spec (IndexByte line sep) 0) as [Hneg|Hpos].
    + pose proof (IndexByte_bounds line sep).
      rewrite IH by lia. reflexivity.
    + lia.
Qed.

Lemma countByte_append (c : ascii) (a b : string) :
  countByte c (a ++ b)%string = (countByte c a + countByte c b)%nat.
Proof.
  induction a as [|x a IH]; simpl; [reflexivity|]. rewrite IH. lia.
Qed.

(** A record of a one-byte file holds a given byte only if the byte is one
    of its fixed characters or occurs in its object id or path. *)
Lemma recordLine_free (c : ascii) (oid name : string) :
  countByte c "100644 blob  1" = O ->
  byte_eqb TAB c = false ->
  IndexByte oid c = -1 -> IndexByte name c = -1 ->
  IndexByte (recordLine "100644" "blob" oid "1" name) c = -1.
Proof.
  intros Hfixed Htab Hoid Hname.
  apply countByte_zero_IndexByte in Hoid, Hname.
  apply countByte_zero_IndexByte.
  unfold recordLine, metaBlock.
  repeat (rewrite countByte_append || cbn [countByte]).
  rewrite Hoid, Hname, Htab.
  cbn [countByte] in Hfixed. unfold SPACE in *.
  repeat match goal with
         | H : context [byte_eqb ?a c] |- _ => destruct (byte_eqb a c)
         end; simpl in *; lia.
Qed.

(** The pieces of a listing of one-byte files. *)
Lemma Split_listingOf (oid : string) (names : list string) :
  IndexByte oid NUL = -1 ->
  Forall (fun name => IndexByte name NUL = -1) names ->
  Split (Examples.listingOf oid names) NUL
  = map (recordLine "100644" "blob" oid "1") names ++ [EmptyString].
Proof.
  intros Hoid. induction 1 as [|name names Hname _ IH]; [reflexivity|].
  cbn [Examples.listingOf fold_right map app].
  fold (Examples.listingOf oid names).
  unfold Examples.record. rewrite append_assoc.
  change (String NUL "" ++ Examples.listingOf oid names)%string
    with (String NUL (Examples.listingOf oid names)).
  rewrite Split_record, IH; [reflexivity|].
  now apply recordLine_free.
Qed.

Lemma parseLines_all_ok (r : Repository) (out trimPath : string) (prefixLen : Z)
      (lines : list string) :
  Forall (fun line =>
            exists fi log, parseLine r out trimPath prefixLen line = (Ok fi, log))
         lines ->
  exists fis log,
    parseLines r out trimPath prefixLen lines = (Ok fis, log)
    /\ List.length fis = List.length lines.
Proof.
  induction 1 as [|line lines (fi & l1 & Hl) _ (fis & l2 & Hp & Hlen)].
  - exists [], []. split; reflexivity.
  - exists (fi :: fis), (l1 ++ l2 ++ []).
    simpl. rewrite Hl. unfold bind at 1. rewrite Hp. unfold bind, ret.
    split; [reflexivity|]. simpl. now rewrite Hlen.
Qed.

(** The root listing of a directory of one-byte files has one entry per
    file. *)
Lemma listing_of_files (r : Repository) (commit oid : string)
      (names : list string) :
  ensureAbsCommit commit = true ->
  checkSpecArgSafety "" = None ->
  IsAbsoluteRevision oid = true ->
  IndexByte oid NUL = -1 -> IndexByte oid TAB = -1 -> countByte SPACE oid = O ->
  names <> [] ->
  Forall (fun name => IndexByte name NUL = -1) names ->
  runCombined (repoURI r) (lsTreeArgs commit "" true)
  = (Examples.listingOf oid names, None) ->
  exists entries,
    fst (lsTreeUncached r commit "" true) = Ok entries
    /\ List.length entries = List.length names.
Proof.
  intros Habs Hsafe Hoid Hnul Htab Hsp Hne Hnames Hrun.
  assert (Examples.listingOf oid names <> EmptyString) as Hout.
  { destruct names as [|n ns]; [contradiction|]. discriminate. }
  rewrite (lsTreeUncached_listing _ _ _ _ _ Habs Hsafe Hrun Hout).
  rewrite (Split_listingOf _ _ Hnul Hnames), removelast_last.
  change (TrimPrefix "" "./") with EmptyString.
  change (LastIndexByte "" SLASH + 1) with 0.
  destruct (parseLines_all_ok r (Examples.listingOf oid names) "" 0
              (map (recordLine "100644" "blob" oid "1") names))
    as (fis & log & Hp & Hlen).
  { apply Forall_forall. intros line Hin.
    apply in_map_iff in Hin. destruct Hin as (name & <- & _).
    assert (IndexByte (metaBlock "100644" "blob" oid "1") TAB = -1) as Hmeta.
    { apply countByte_zero_IndexByte in Htab.
      apply countByte_zero_IndexByte. unfold metaBlock.
      repeat (rewrite countByte_append || cbn [countByte]).
      rewrite Htab. reflexivity. }
    unfold recordLine. rewrite (parseLine_record _ _ _ _ _ _ Hmeta).
    destruct (parseRecord_ok r (Examples.listingOf oid names) ""
                "100644" "blob" oid "1" name 33188)
      as (ms & lg & nm & size & _ & _ & _ & _ & Hrec); try reflexivity;
      try assumption.
    - right. exists 1. split; [reflexivity|lia].
    - change (LastIndexByte "" SLASH + 1) with 0 in Hrec. eauto. }
  rewrite Hp. cbn [fst]. eexists; split; [reflexivity|].
  unfold SortFileInfosByName.
  rewrite <- (Permutation_length (FileInfoSort.Permuted_sort fis)).
  now rewrite Hlen, length_map.
Qed.


(** ** Keys that identify their request *)

Lemma colon_free_cut (a b x y : string) (c : ascii) :
  countByte c a = O -> countByte c b = O ->
  (a ++ String c x)%string = (b ++ String c y)%string ->
  a = b /\ x = y.
Proof.
  revert b; induction a as [|p a IH]; intros [|q b] Ha Hb Heq; simpl in *.
  - inversion Heq; auto.
  - inversion Heq; subst. rewrite byte_eqb_refl in Hb. discriminate.
  - inversion Heq; subst. rewrite byte_eqb_refl in Ha. discriminate.
  - inversion Heq; subst.
    destruct (byte_eqb q c); [discriminate|].
    destruct (IH b Ha Hb H1) as [-> ->]. auto.
Qed.

(** A repository identifier and a commit id free of ':' make a key that
    no other root request has. *)
Lemma cacheKey_unambiguous (r r' : Repository) (commit commit' : string) :
  countByte ":" (repoURI r) = O ->
  countByte ":" commit = O ->
  cacheKey r' commit' "" = cacheKey r commit "" ->
  r' = r /\ commit' = commit.
Proof.
  unfold cacheKey. intros Hr Hc Heq.
  change (":" ++ commit' ++ ":" ++ "")%string
    with (String ":" (commit' ++ String ":" "")) in Heq.
  change (":" ++ commit ++ ":" ++ "")%string
    with (String ":" (commit ++ String ":" "")) in Heq.
  assert (countByte ":" (repoURI r') = O /\ countByte ":" commit' = O) as [Hr' Hc'].
  { apply (f_equal (countByte ":")) in Heq.
    rewrite !countByte_append in Heq. cbn [countByte] in Heq.
    rewrite !countByte_append in Heq. cbn [countByte] in Heq.
    change (byte_eqb ":" ":") with true in Heq. cbv iota in Heq. lia. }
  destruct (colon_free_cut _ _ _ _ _ Hr' Hr Heq) as [Huri Hrest].
  destruct (colon_free_cut _ _ _ _ _ Hc' Hc Hrest) as [-> _].
  destruct r, r'; simpl in *; subst; auto.
Qed.

(** Cache transparency where the key is unambiguous: whatever the process
    has done before, a request whose repository identifier and commit id
    hold no ':' gets from the cached function what the uncached one
    returns; so does every request that is not the recursive listing of
    the root, which does not go through the cache. *)
Lemma lsTree_transparent_colon_free (slow : bool) (r : Repository)
      (commit path : string) (recurse : bool) (s : State) :
  reachable s ->
  (path <> EmptyString \/ recurse = false
   \/ (countByte ":" (repoURI r) = O /\ countByte ":" commit = O)) ->
  fst (lsTree slow r commit path recurse s)
  = fst (lsTreeUncached r commit path recurse).
Proof.
  intros Hreach [Hp|[Hr|[Huri Hc]]].
  - rewrite lsTree_bypass by (now left). reflexivity.
  - rewrite lsTree_bypass by (now right). reflexivity.
  - apply lsTree_transparent; [assumption|].
    intros r' commit'. now apply cacheKey_unambiguous.
Qed.

(** ** Further properties of the listing *)

Lemma Split_no_sep (s : string) (sep : ascii) :
  countByte sep s = O -> Split s sep = [s].
Proof.
  induction s as [|a s IH]; simpl; intros H; [reflexivity|].
  destruct (byte_eqb a sep); [simpl in H; lia|].
  rewrite IH by (simpl in H; lia). reflexivity.
Qed.

(** The listing, with its invocations, once the subprocess has exited
    normally with some output. *)
Lemma lsTreeUncached_run (r : Repository) (commit path : string)
      (recurse : bool) (out : string) :
  ensureAbsCommit commit = true ->
  checkSpecArgSafety path = None ->
  runCombined (repoURI r) (lsTreeArgs commit path recurse) = (out, None) ->
  out <> EmptyString ->
  lsTreeUncached r commit path recurse
  = match parseLines r out (TrimPrefix path "./")
                     (LastIndexByte (TrimPrefix path "./") SLASH + 1)
                     (removelast (Split out NUL)) with
    | (Ok fis, log) =>
        (Ok (SortFileInfosByName fis),
         Command (repoURI r) (lsTreeArgs commit path recurse) :: log)
    | (Err e, log) =>
        (Err e, Command (repoURI r) (lsTreeArgs commit path recurse) :: log)
    end.
Proof.
  intros Habs Hsafe Hrun Hout.
  unfold lsTreeUncached, CombinedOutput.
  rewrite Habs, Hsafe; simpl negb; cbv iota.
  unfold bind at 1. rewrite Hrun. cbn [fst snd].
  destruct (String.eqb_spec out ""); [contradiction|].
  destruct (parseLines _ _ _ _ _) as [[fis|e] log]; unfold bind, ret; simpl;
    rewrite ?app_nil_r; reflexivity.
Qed.

(** X1 -- The root needs no subprocess.  On a path that [Rel] and [Clean]
    reduce to ".", and a commit the guard accepts, [Lstat] returns the
    synthetic directory entry (empty name, mode directory, size 0) and
    leaves the state as it was: nothing is run.  [Stat] does the same when
    the path it hands to [Lstat] still reduces to ".". *)
Theorem root_needs_no_subprocess (r : Repository) (commit path : string)
        (s : State) :
  checkSpecArgSafety commit = None ->
  (Clean (Rel path) = "." ->
   Lstat r commit path s = (Ok (mkFileInfo "" ModeDir 0 None), s))
  /\ (Clean (Rel (Rel path)) = "." ->
      Stat r commit path s = (Ok (mkFileInfo "" ModeDir 0 None), s)).
Proof.
  intros Hsafe. split; intros Hroot.
  - now apply Lstat_root.
  - unfold Stat. rewrite Hsafe. unfold bindM.
    rewrite (Lstat_root _ _ _ _ Hsafe Hroot). reflexivity.
Qed.

(** X2 -- The only panic is the one of [ensureAbsCommit].  When the
    listing, [Lstat] or [ReadDir] ends in a panic, [ensureAbsCommit] did
    not return normally on a commit: none of the slice expressions of the
    loop is ever out of range. *)
Theorem only_ensureAbsCommit_panics (slow : bool) (r : Repository)
        (commit path msg : string) (recurse : bool) (s : State) :
  (fst (lsTreeUncached r commit path recurse) = Err (GoPanic msg) ->
   ensureAbsCommit commit = false)
  /\ (fst (Lstat r commit path s) = Err (GoPanic msg) ->
      ensureAbsCommit commit = false)
  /\ (fst (ReadDir slow r commit path recurse s) = Err (GoPanic msg) ->
      ensureAbsCommit commit = false).
Proof.
  assert (forall p rec,
             fst (lsTreeUncached r commit p rec) = Err (GoPanic msg) ->
             ensureAbsCommit commit = false) as Hu.
  { intros p rec H.
    pose proof (lsTreeUncached_cases r commit p rec) as Hc. cbv zeta in Hc.
    destruct (runCombined (repoURI r) (lsTreeArgs commit p rec)) as [out err];
      cbn [fst snd] in Hc.
    destruct Hc as [(Ha & _)|[(_ & m & _ & E)|[(_ & _ & err' & _ & _ & E)
      |[(_ & _ & err' & _ & _ & E)|[(_ & _ & _ & _ & E)
      |(_ & _ & _ & _ & E)]]]]];
      try assumption; try (rewrite E in H; discriminate).
    rewrite E in H.
    destruct (parseLines r out (TrimPrefix p "./")
                (LastIndexByte (TrimPrefix p "./") SLASH + 1)
                (removelast (Split out NUL))) as [[fis|e] log] eqn:Hp;
      cbn [fst] in H; [discriminate|].
    inversion H; subst e.
    destruct (parseLines_err _ _ _ _ _ _ _ Hp) as (line & log' & _ & Hl).
    apply parseLine_err_malformed in Hl. discriminate. }
  split; [apply Hu|]. split.
  - intros H.
    destruct (checkSpecArgSafety commit) as [m|] eqn:Hsafe.
    { rewrite (Lstat_unsafe _ _ _ _ _ Hsafe) in H. discriminate. }
    destruct (string_dec (Clean (Rel path)) ".") as [Hroot|Hroot].
    { rewrite (Lstat_root _ _ _ _ Hsafe Hroot) in H. discriminate. }
    rewrite (Lstat_listing _ _ _ _ Hsafe Hroot) in H. cbn [fst] in H.
    destruct (fst (lsTreeUncached r commit (Clean (Rel path)) false))
      as [[|fi fis]|e] eqn:E; try discriminate.
    inversion H; subst e. eapply Hu; eassumption.
  - intros H. unfold ReadDir in H.
    destruct (checkSpecArgSafety commit); [discriminate|].
    match type of H with
    | fst (lsTree _ _ _ ?p _ _) = _ =>
        destruct (lsTree_result slow r commit p recurse s)
          as [Heq|(_ & _ & v & _ & Hv)]
    end.
    + rewrite Heq in H. eapply Hu; eassumption.
    + rewrite Hv in H. discriminate.
Qed.

(** X3 -- A path the guard rejects is never run.  When [ensureAbsCommit]
    returns normally and the guard rejects the path, the listing fails with
    the guard's error and has started no subprocess; so do [Lstat], when
    the guard rejects the cleaned path, and [ReadDir], when it rejects the
    cleaned path followed by '/': they return the guard's error and leave
    the state as it was. *)
Theorem unsafe_path_runs_nothing (slow : bool) (r : Repository)
        (commit path msg : string) (recurse : bool) (s : State) :
  ensureAbsCommit commit = true ->
  (checkSpecArgSafety path = Some msg ->
   lsTreeUncached r commit path recurse = (Err (UnsafeArgumentError msg), []))
  /\ (checkSpecArgSafety commit = None ->
      Clean (Rel path) <> "." ->
      checkSpecArgSafety (Clean (Rel path)) = Some msg ->
      Lstat r commit path s = (Err (UnsafeArgumentError msg), s))
  /\ (checkSpecArgSafety commit = None ->
      path <> EmptyString ->
      checkSpecArgSafety (Clean (Rel path) ++ "/") = Some msg ->
      ReadDir slow r commit path recurse s = (Err (UnsafeArgumentError msg), s)).
Proof.
  intros Habs.
  assert (forall p rec, checkSpecArgSafety p = Some msg ->
                        lsTreeUncached r commit p rec
                        = (Err (UnsafeArgumentError msg), [])) as Hu.
  { intros p rec Hsafe. unfold lsTreeUncached. now rewrite Habs, Hsafe. }
  split; [apply Hu|]. split.
  - intros Hc Hroot Hp.
    rewrite (Lstat_listing _ _ _ _ Hc Hroot), (Hu _ false Hp).
    destruct s; cbn [fst snd lsTreeRootCache invocations].
    now rewrite app_nil_r.
  - intros Hc Hne Hp. unfold ReadDir. rewrite Hc.
    destruct (String.eqb_spec path ""); [contradiction|]. cbn [negb].
    rewrite lsTree_bypass by (left; destruct (Clean (Rel path)); discriminate).
    unfold liftExec. rewrite (Hu _ recurse Hp).
    destruct s; cbn [fst snd lsTreeRootCache invocations].
    now rewrite app_nil_r.
Qed.

(** X4 -- A failed subprocess is not parsed.  When the subprocess exits
    with an error and its output does not hold "exists on disk, but not
    in", the listing fails with an execution error that carries the
    argument vector, the exit error and the whole output; whatever records
    the output holds are left unread, and one subprocess was started. *)
Theorem exec_error_not_parsed (r : Repository) (commit path out err : string)
        (recurse : bool) :
  ensureAbsCommit commit = true ->
  checkSpecArgSafety path = None ->
  runCombined (repoURI r) (lsTreeArgs commit path recurse) = (out, Some err) ->
  Contains out "exists on disk, but not in" = false ->
  lsTreeUncached r commit path recurse
  = (Err (ExecError (lsTreeArgs commit path recurse) err out),
     [Command (repoURI r) (lsTreeArgs commit path recurse)]).
Proof.
  intros Habs Hsafe Hrun Hc.
  unfold lsTreeUncached, CombinedOutput.
  rewrite Habs, Hsafe; simpl negb; cbv iota.
  unfold bind at 1. rewrite Hrun. cbn [fst snd]. now rewrite Hc.
Qed.

(** X5 -- An output without NUL lists nothing.  When the subprocess exits
    normally with a non-empty output that holds no NUL byte, the whole
    output is the final piece that the loop skips: the listing succeeds
    with no entry, whatever the text is, and [Lstat] on that path reports
    that the path does not exist. *)
Theorem output_without_NUL_lists_nothing (r : Repository)
        (commit path out : string) (recurse : bool) :
  ensureAbsCommit commit = true ->
  checkSpecArgSafety path = None ->
  runCombined (repoURI r) (lsTreeArgs commit path recurse) = (out, None) ->
  out <> EmptyString ->
  countByte NUL out = O ->
  lsTreeUncached r commit path recurse
  = (Ok [], [Command (repoURI r) (lsTreeArgs commit path recurse)])
  /\ (forall (p : string) (s : State),
         checkSpecArgSafety commit = None ->
         Clean (Rel p) = path -> path <> "." -> recurse = false ->
         fst (Lstat r commit p s) = Err (PathError "ls-tree" path)).
Proof.
  intros Habs Hsafe Hrun Hout Hnul.
  assert (lsTreeUncached r commit path recurse
          = (Ok [], [Command (repoURI r) (lsTreeArgs commit path recurse)]))
    as Hlist.
  { rewrite (lsTreeUncached_run _ _ _ _ _ Habs Hsafe Hrun Hout).
    rewrite (Split_no_sep _ _ Hnul). reflexivity. }
  split; [exact Hlist|].
  intros p s Hc Hp Hroot ->. subst path.
  rewrite (Lstat_listing _ _ _ _ Hc Hroot). cbn [fst]. now rewrite Hlist.
Qed.

(** ** The root cache over a run *)

(** The recursive root listing, case by case. *)
Lemma lsTree_root (slow : bool) (r : Repository) (commit : string) (s : State) :
  lsTree slow r commit "" true s
  = match lru.lookup (cacheKey r commit "") (lsTreeRootCache s) with
    | Some v =>
        (Ok v,
         mkState ((cacheKey r commit "", v)
                    :: lru.remove (cacheKey r commit "") (lsTreeRootCache s))
                 (invocations s))
    | None =>
        match lsTreeUncached r commit "" true with
        | (Err e, log) =>
            (Err e, mkState (lsTreeRootCache s) (invocations s ++ log))
        | (Ok entries, log) =>
            (Ok entries,
             mkState (if slow && (5000 <? Z.of_nat (List.length entries))
                      then lru.Add (cacheKey r commit "") entries
                                   (lsTreeRootCache s)
                      else lsTreeRootCache s)
                     (invocations s ++ log))
        end
    end.
Proof.
  unfold lsTree; cbn [negb orb String.eqb].
  unfold lru.Get, liftExec.
  destruct (lru.lookup (cacheKey r commit "") (lsTreeRootCache s)); [reflexivity|].
  cbn [lsTreeRootCache invocations fst snd].
  destruct (lsTreeUncached r commit "" true) as [[entries|e] log];
    cbn [fst snd]; [|reflexivity].
  destruct (slow && (5000 <? Z.of_nat (List.length entries))); reflexivity.
Qed.

(** How a call of [lsTree] can change the cache: not at all, by moving a
    present entry to the front, or by adding a listing that took long and
    has more than 5000 entries. *)
Lemma lsTree_cache_cases (slow : bool) (r : Repository) (commit path : string)
      (recurse : bool) (s : State) :
  lsTreeRootCache (snd (lsTree slow r commit path recurse s)) = lsTreeRootCache s
  \/ (exists v,
         lru.lookup (cacheKey r commit "") (lsTreeRootCache s) = Some v
         /\ lsTreeRootCache (snd (lsTree slow r commit path recurse s))
            = (cacheKey r commit "", v)
                :: lru.remove (cacheKey r commit "") (lsTreeRootCache s))
  \/ (exists entries,
         lru.lookup (cacheKey r commit "") (lsTreeRootCache s) = None
         /\ fst (lsTreeUncached r commit "" true) = Ok entries
         /\ slow = true
         /\ 5000 < Z.of_nat (List.length entries)
         /\ lsTreeRootCache (snd (lsTree slow r commit path recurse s))
            = lru.Add (cacheKey r commit "") entries (lsTreeRootCache s)).
Proof.
  destruct (negb (path =? "")%string || negb recurse) eqn:Hshape.
  - left. unfold lsTree. rewrite Hshape. reflexivity.
  - apply cached_shape in Hshape. destruct Hshape as [-> ->].
    rewrite lsTree_root.
    destruct (lru.lookup (cacheKey r commit "") (lsTreeRootCache s)) as [v|] eqn:Hl.
    + right; left. exists v. split; reflexivity.
    + destruct (lsTreeUncached r commit "" true) as [[entries|e] log] eqn:Hu;
        [|left; reflexivity].
      destruct slow; [|left; reflexivity].
      destruct (5000 <? Z.of_nat (List.length entries)) eqn:Hlen;
        [|left; reflexivity].
      right; right. exists entries. apply Z.ltb_lt in Hlen.
      repeat split; assumption.
Qed.

(** Induction over the states the process can be in, for a property of
    the cache. *)
Lemma reachable_cache_ind (P : lru.Cache -> Prop) :
  P lru.New ->
  (forall key v c, P c -> lru.lookup key c = Some v ->
                   P ((key, v) :: lru.remove key c)) ->
  (forall r commit entries c,
      P c ->
      lru.lookup (cacheKey r commit "") c = None ->
      fst (lsTreeUncached r commit "" true) = Ok entries ->
      5000 < Z.of_nat (List.length entries) ->
      P (lru.Add (cacheKey r commit "") entries c)) ->
  forall s, reachable s -> P (lsTreeRootCache s).
Proof.
  intros Hnew Hget Hadd.
  assert (forall slow r commit path recurse s,
             P (lsTreeRootCache s) ->
             P (lsTreeRootCache (snd (lsTree slow r commit path recurse s))))
    as Hls.
  { intros slow r commit path recurse s HP.
    destruct (lsTree_cache_cases slow r commit path recurse s)
      as [->|[(v & Hl & ->)|(entries & Hl & Hu & _ & Hlen & ->)]].
    - assumption.
    - now apply Hget.
    - now apply Hadd. }
  induction 1 as [|s slow r commit path recurse _ IH|s r commit path _ IH
                  |s r commit path _ IH|s slow r commit path recurse _ IH].
  - exact Hnew.
  - now apply Hls.
  - now rewrite Lstat_cache.
  - now rewrite Stat_cache.
  - unfold ReadDir. destruct (checkSpecArgSafety commit); [exact IH|].
    now apply Hls.
Qed.

Lemma lookup_None_keys (key : string) (c : lru.Cache) :
  lru.lookup key c = None -> ~ In key (map fst c).
Proof.
  induction c as [|[k v] c IH]; simpl; intros H; [tauto|].
  destruct (String.eqb_spec k key); [discriminate|].
  intros [Hk|Hin]; [contradiction|]. now apply IH.
Qed.

Lemma remove_keys (key k : string) (c : lru.Cache) :
  In k (map fst (lru.remove key c)) -> In k (map fst c) /\ k <> key.
Proof.
  induction c as [|[k0 v] c IH]; simpl; [tauto|].
  destruct (String.eqb_spec k0 key) as [->|Hne].
  - intros H. destruct (IH H). tauto.
  - simpl. intros [<-|H]; [tauto|]. destruct (IH H). tauto.
Qed.

Lemma remove_NoDup (key : string) (c : lru.Cache) :
  NoDup (map fst c) -> NoDup (map fst (lru.remove key c)).
Proof.
  induction c as [|[k v] c IH]; simpl; intros H; [constructor|].
  inversion H as [|? ? Hnin Hnd]; subst.
  destruct (k =? key)%string; [now apply IH|].
  simpl. constructor; [|now apply IH].
  intros Hin. apply remove_keys in Hin. tauto.
Qed.

Lemma remove_length (key : string) (c : lru.Cache) :
  (List.length (lru.remove key c) <= List.length c)%nat
  /\ (forall v, lru.lookup key c = Some v ->
                (List.length (lru.remove key c) < List.length c)%nat).
Proof.
  induction c as [|[k v] c [IH1 IH2]]; simpl.
  - split; [lia|discriminate].
  - destruct (k =? key)%string; simpl.
    + split; [lia|]. intros _ _. lia.
    + split; [lia|]. intros v' H. specialize (IH2 v' H). lia.
Qed.

Lemma removelast_NoDup {A : Type} (l : list A) :
  NoDup l -> NoDup (removelast l).
Proof.
  induction l as [|a l IH]; intros H; [constructor|].
  inversion H as [|? ? Hnin Hnd]; subst.
  destruct l as [|b l]; [constructor|].
  change (removelast (a :: b :: l)) with (a :: removelast (b :: l)).
  constructor; [|now apply IH].
  intros Hin. apply Hnin. now apply removelast_In.
Qed.

Lemma removelast_map {A B : Type} (f : A -> B) (l : list A) :
  map f (removelast l) = removelast (map f l).
Proof.
  induction l as [|a l IH]; [reflexivity|].
  destruct l as [|b l]; [reflexivity|].
  change (removelast (a :: b :: l)) with (a :: removelast (b :: l)).
  change (map f (a :: removelast (b :: l)))
    with (f a :: map f (removelast (b :: l))).
  rewrite IH. reflexivity.
Qed.

(** Insert, then look up. *)
Lemma lookup_Add (key : string) (v : list FileInfo) (c : lru.Cache) :
  lru.lookup key (lru.Add key v c) = Some v.
Proof.
  unfold lru.Add.
  destruct (lru.lookup key c); [simpl; now rewrite String.eqb_refl|].
  cbv zeta.
  destruct (lru.MaxEntries <? List.length ((key, v) :: c))%nat eqn:Hlen.
  - destruct c as [|x c]; [discriminate|].
    change (removelast ((key, v) :: x :: c))
      with ((key, v) :: removelast (x :: c)).
    simpl. now rewrite String.eqb_refl.
  - simpl. now rewrite String.eqb_refl.
Qed.

(** A listing that took long and has more than 5000 entries is in the
    cache after the call that computed it. *)
Lemma stored_listing_In (r : Repository) (commit : string) (entries : list FileInfo)
      (s : State) :
  lru.lookup (cacheKey r commit "") (lsTreeRootCache s) = None ->
  fst (lsTreeUncached r commit "" true) = Ok entries ->
  5000 < Z.of_nat (List.length entries) ->
  In (cacheKey r commit "", entries)
     (lsTreeRootCache (snd (lsTree true r commit "" true s))).
Proof.
  intros Hmiss Hu Hlen. rewrite lsTree_root, Hmiss.
  destruct (lsTreeUncached r commit "" true) as [[entries'|e] log];
    cbn [fst] in Hu; [|discriminate].
  inversion Hu; subst entries'.
  apply Z.ltb_lt in Hlen. rewrite Hlen. cbn [andb snd lsTreeRootCache].
  apply lookup_In, lookup_Add.
Qed.

(** X6 -- Only large listings are cached.  Whatever the process has done,
    every sequence in the cache has more than 5000 entries and is what the
    uncached recursive root listing returned, without error, for a request
    with that key: an error, and a listing of 5000 entries or fewer, are
    never stored. *)
Theorem cached_listings_are_large (s : State) (key : string)
        (v : list FileInfo) :
  reachable s ->
  In (key, v) (lsTreeRootCache s) ->
  5000 < Z.of_nat (List.length v)
  /\ exists r commit,
       key = cacheKey r commit ""
       /\ fst (lsTreeUncached r commit "" true) = Ok v.
Proof.
  intros Hreach Hin. split.
  - revert key v Hin.
    apply (reachable_cache_ind
             (fun c => forall key v, In (key, v) c ->
                                     5000 < Z.of_nat (List.length v)));
      [| | |exact Hreach].
    + intros key v [].
    + intros key v c IH Hl key' v' [Heq|Hin].
      * inversion Heq; subst. eapply IH, lookup_In; eassumption.
      * eapply IH, remove_In; eassumption.
    + intros r commit entries c IH _ _ Hlen key' v' Hin.
      apply Add_In in Hin. destruct Hin as [Heq|Hin].
      * inversion Heq; subst. assumption.
      * eapply IH; eassumption.
  - exact (reachable_faithful s Hreach key v Hin).
Qed.

(** X7 -- The cache holds at most five listings.  Whatever the process has
    done, the cache has at most [lru.MaxEntries] entries, and no two of
    them under the same key. *)
Theorem cache_holds_at_most_five (s : State) :
  reachable s ->
  (List.length (lsTreeRootCache s) <= lru.MaxEntries)%nat
  /\ NoDup (map fst (lsTreeRootCache s)).
Proof.
  apply (reachable_cache_ind
           (fun c => (List.length c <= lru.MaxEntries)%nat
                     /\ NoDup (map fst c))).
  - split; [simpl; lia|constructor].
  - intros key v c [Hlen Hnd] Hl. split.
    + pose proof (proj2 (remove_length key c) v Hl). simpl. lia.
    + simpl. constructor; [|now apply remove_NoDup].
      intros Hin. apply remove_keys in Hin. tauto.
  - intros r commit entries c [Hlen Hnd] Hl _ _.
    unfold lru.Add. rewrite Hl. cbv zeta.
    assert (NoDup (map fst ((cacheKey r commit "", entries) :: c))) as Hnd'.
    { simpl. constructor; [now apply lookup_None_keys|assumption]. }
    destruct (lru.MaxEntries <? List.length ((cacheKey r commit "", entries) :: c))%nat
      eqn:Hfull.
    + split.
      * pose proof (removelast_length ((cacheKey r commit "", entries) :: c)) as Hr.
        simpl in *. lia.
      * rewrite removelast_map. now apply removelast_NoDup.
    + apply Nat.ltb_ge in Hfull. split; assumption.
Qed.



(** X9 -- An admitted listing is served without a subprocess.  When the
    recursive root listing of a request that is not in the cache succeeds
    with more than 5000 entries and took long, the same request made again
    returns the same entries and starts no subprocess. *)
Theorem stored_listing_served_from_cache (slow : bool) (r : Repository)
        (commit : string) (entries : list FileInfo) (s : State) :
  lru.lookup (cacheKey r commit "") (lsTreeRootCache s) = None ->
  fst (lsTreeUncached r commit "" true) = Ok entries ->
  5000 < Z.of_nat (List.length entries) ->
  fst (lsTree slow r commit "" true (snd (lsTree true r commit "" true s)))
  = Ok entries
  /\ invocations
       (snd (lsTree slow r commit "" true (snd (lsTree true r commit "" true s))))
     = invocations (snd (lsTree true r commit "" true s)).
Proof.
  intros Hmiss Hu Hlen.
  rewrite (lsTree_root true r commit s), Hmiss.
  destruct (lsTreeUncached r commit "" true) as [[entries'|e] log];
    cbn [fst] in Hu; [|discriminate].
  inversion Hu; subst entries'.
  apply Z.ltb_lt in Hlen. rewrite Hlen. cbn [andb].
  rewrite lsTree_root. cbn [snd fst lsTreeRootCache invocations].
  rewrite lookup_Add. split; reflexivity.
Qed.

(** X10 -- A fast or small listing is not stored.  On a request that is not
    in the cache, when the listing did not take long, or did not succeed
    with more than 5000 entries, [lsTree] returns what the uncached listing
    returns and leaves the cache as it was. *)
Theorem fast_or_small_listing_not_stored (slow : bool) (r : Repository)
        (commit : string) (s : State) :
  lru.lookup (cacheKey r commit "") (lsTreeRootCache s) = None ->
  (slow = false
   \/ forall entries, fst (lsTreeUncached r commit "" true) = Ok entries ->
                      Z.of_nat (List.length entries) <= 5000) ->
  lsTree slow r commit "" true s
  = (fst (lsTreeUncached r commit "" true),
     mkState (lsTreeRootCache s)
             (invocations s ++ snd (lsTreeUncached r commit "" true))).
Proof.
  intros Hmiss Hcond. rewrite lsTree_root, Hmiss.
  destruct (lsTreeUncached r commit "" true) as [[entries|e] log];
    cbn [fst snd]; [|reflexivity].
  destruct Hcond as [->|Hsmall]; [reflexivity|].
  specialize (Hsmall entries eq_refl).
  apply Z.ltb_ge in Hsmall. rewrite Hsmall, Bool.andb_false_r. reflexivity.
Qed.

(** X11 -- Without a colon the cache is transparent.  Whatever the process
    has done, [ReadDir] on a repository identifier and a commit id that
    hold no ':' returns what the uncached listing of the path it asks for
    returns. *)
Theorem ReadDir_transparent_without_colon (slow : bool) (r : Repository)
        (commit path : string) (recurse : bool) (s : State) :
  reachable s ->
  checkSpecArgSafety commit = None ->
  countByte ":" (repoURI r) = O ->
  countByte ":" commit = O ->
  fst (ReadDir slow r commit path recurse s)
  = fst (lsTreeUncached r commit
           (if (path =? "")%string then "" else (Clean (Rel path) ++ "/")%string)
           recurse).
Proof.
  intros Hreach Hsafe Huri Hc. unfold ReadDir. rewrite Hsafe.
  destruct (String.eqb_spec path ""); cbn [negb].
  - subst path. apply lsTree_transparent; [assumption|].
    intros r' commit'. now apply cacheKey_unambiguous.
  - apply lsTree_transparent; [assumption|].
    intros r' commit'. now apply cacheKey_unambiguous.
Qed.

(** ** What the entries are made of *)

(** The [switch typ], by type: a commit asks for the URL of the submodule
    and never fails; the other types run nothing. *)
Lemma translateMode_sys (r : Repository) (typ oid name : string) (mode : Z) :
  (typ = "commit"
   /\ translateMode r typ oid name mode
      = (Ok (Z.lor mode ModeSubmodule,
             Some (mkSubmoduleInfo
                     (match snd (runStdout (repoURI r)
                                   ["git"; "config"; "--get";
                                    ("submodule." ++ name ++ ".url")%string]) with
                      | None => TrimSpace
                                  (fst (runStdout (repoURI r)
                                          ["git"; "config"; "--get";
                                           ("submodule." ++ name ++ ".url")%string]))
                      | Some _ => ""
                      end) oid)),
         [configQuery r name]))
  \/ (typ <> "commit"
      /\ exists m, translateMode r typ oid name mode = (Ok (m, None), [])).
Proof.
  unfold translateMode.
  destruct (String.eqb_spec typ "blob") as [->|Hb].
  - right. split; [discriminate|].
    destruct (negb (Z.land mode gitModeSymlink =? 0)); eexists; reflexivity.
  - destruct (String.eqb_spec typ "commit") as [->|Hc].
    + left. split; reflexivity.
    + right. split; [assumption|].
      destruct (typ =? "tree")%string; eexists; reflexivity.
Qed.

(** A record that is parsed, with the subprocesses it starts. *)
Lemma parseRecord_ok_full (r : Repository) (out trimPath : string)
      (prefixLen : Z) (meta name0 : string) (fi : FileInfo)
      (log : list invocation) :
  parseRecord r out trimPath prefixLen meta name0 = (Ok fi, log) ->
  exists modeStr typ oid size3 raw m,
    SplitN meta SPACE 4 = [modeStr; typ; oid; size3]
    /\ IsAbsoluteRevision oid = true
    /\ 0 <= Size_ fi
    /\ ParseInt modeStr 8 32 = Some raw
    /\ translateMode r typ oid
         (if len name0 <? len trimPath then trimPath else name0) raw
       = (Ok (m, Sys_ fi), log)
    /\ Mode_ fi = FileMode m.
Proof.
  unfold parseRecord.
  destruct (SplitN meta SPACE 4) as [|modeStr [|typ [|oid [|size3 [|x l]]]]];
    try (unfold raise; discriminate).
  destruct (IsAbsoluteRevision oid) eqn:Hoid; [|unfold raise; discriminate].
  simpl negb; cbv iota.
  destruct (parseSize_cases (TrimSpace size3)) as [(size & Hsz & Hpos)|Hsz];
    rewrite Hsz; [|unfold bind, raise; discriminate].
  unfold bind at 1; unfold ret at 1.
  destruct (ParseInt modeStr 8 32) as [raw|] eqn:Hmode;
    [|unfold raise; discriminate].
  destruct (translateMode_total r typ oid
              (if len name0 <? len trimPath then trimPath else name0) raw)
    as ([m sys] & log' & Htm).
  rewrite Htm; unfold bind.
  destruct (sliceFrom _ (Z.to_nat prefixLen)) as [nm|] eqn:Hsl;
    [|unfold raise; discriminate].
  unfold ret; intros H; inversion H; subst; clear H; simpl.
  exists modeStr, typ, oid, size3, raw, m.
  rewrite app_nil_r. repeat split; auto.
Qed.

(** A line that is parsed is cut at its first tab and parsed as a record. *)
Lemma parseLine_ok_record (r : Repository) (out trimPath : string)
      (prefixLen : Z) (line : string) (fi : FileInfo) (log : list invocation) :
  parseLine r out trimPath prefixLen line = (Ok fi, log) ->
  exists meta name0,
    line = (meta ++ String TAB name0)%string
    /\ IndexByte meta TAB = -1
    /\ parseRecord r out trimPath prefixLen meta name0 = (Ok fi, log).
Proof.
  intros H.
  destruct (Z.eq_dec (IndexByte line TAB) (-1)) as [Hno|Htab].
  - rewrite (parseLine_no_tab _ _ _ _ _ Hno) in H. discriminate.
  - destruct (parseLine_tab r out trimPath prefixLen line Htab)
      as (meta & name0 & Hl & Hm & Heq).
    exists meta, name0. rewrite <- Heq. auto.
Qed.

Lemma parseLine_entryOK (r : Repository) (out trimPath : string)
      (prefixLen : Z) (line : string) (fi : FileInfo) (log : list invocation) :
  parseLine r out trimPath prefixLen line = (Ok fi, log) -> entryOK fi.
Proof.
  intros H.
  destruct (parseLine_ok_record _ _ _ _ _ _ _ H) as (meta & name0 & _ & _ & Hr).
  destruct (parseRecord_ok_full _ _ _ _ _ _ _ _ Hr)
    as (modeStr & typ & oid & size3 & raw & m & _ & Hoid & Hsize & _ & Htm & Hm).
  repeat split; try assumption.
  - rewrite Hm. unfold FileMode. apply Z.mod_pos_bound. lia.
  - rewrite Hm. unfold FileMode. apply Z.mod_pos_bound. lia.
  - intros info Hsys.
    destruct (translateMode_sys r typ oid
                (if len name0 <? len trimPath then trimPath else name0) raw)
      as [(_ & E)|(_ & m' & E)]; rewrite E in Htm; inversion Htm; subst.
    + rewrite Hsys in *. match goal with
      | H : Some _ = Some info |- _ => inversion H; subst info
      end. exact Hoid.
    + congruence.
Qed.

Lemma lsTreeUncached_entryOK (r : Repository) (commit path : string)
      (recurse : bool) (fis : list FileInfo) :
  fst (lsTreeUncached r commit path recurse) = Ok fis -> Forall entryOK fis.
Proof.
  intros H.
  destruct (lsTreeUncached_ok_inv _ _ _ _ _ H)
    as (out & entries & log & _ & _ & Hp & ->).
  apply (Permutation_Forall (FileInfoSort.Permuted_sort entries)).
  apply parseLines_ok in Hp. clear H.
  induction Hp as [|line fi lines fis' (log' & Hl) _ IH]; constructor.
  - eapply parseLine_entryOK; eassumption.
  - exact IH.
Qed.

Lemma Lstat_entryOK (r : Repository) (commit path : string) (s : State)
      (fi : FileInfo) :
  fst (Lstat r commit path s) = Ok fi -> entryOK fi.
Proof.
  intros H.
  destruct (checkSpecArgSafety commit) as [m|] eqn:Hsafe.
  { rewrite (Lstat_unsafe _ _ _ _ _ Hsafe) in H. discriminate. }
  destruct (string_dec (Clean (Rel path)) ".") as [Hroot|Hroot].
  { rewrite (Lstat_root _ _ _ _ Hsafe Hroot) in H. inversion H; subst.
    unfold entryOK; cbn [Mode_ Size_ Sys_]. unfold ModeDir.
    repeat split; try lia; discriminate. }
  rewrite (Lstat_listing _ _ _ _ Hsafe Hroot) in H. cbn [fst] in H.
  destruct (fst (lsTreeUncached r commit (Clean (Rel path)) false))
    as [[|fi' fis]|e] eqn:E; try discriminate.
  inversion H; subst fi'.
  apply lsTreeUncached_entryOK in E. now inversion E.
Qed.

(** What [Stat] returns is what one of its calls of [Lstat] returned, up
    to the name. *)
Lemma Stat_from_Lstat (r : Repository) (commit path : string) (s : State)
      (fi : FileInfo) :
  fst (Stat r commit path s) = Ok fi ->
  exists p s' fi',
    fst (Lstat r commit p s') = Ok fi'
    /\ Mode_ fi = Mode_ fi' /\ Size_ fi = Size_ fi' /\ Sys_ fi = Sys_ fi'.
Proof.
  unfold Stat. destruct (checkSpecArgSafety commit); [discriminate|].
  unfold bindM.
  destruct (Lstat r commit (Rel path) s) as [[fi1|e] s1] eqn:H1;
    [|discriminate].
  destruct (negb (Z.land (Mode_ fi1) ModeSymlink =? 0)).
  - unfold liftExec, readFileBytes; cbn [fst snd].
    destruct (fileContent (repoURI r) commit (Rel path)) as [b|e];
      [|discriminate].
    match goal with
    | |- fst (match Lstat r commit b ?s2 with _ => _ end) = _ -> _ =>
        destruct (Lstat r commit b s2) as [[fi2|e2] s3] eqn:H2;
        [|discriminate];
        intros H; inversion H; subst;
        exists b, s2, fi2
    end.
    rewrite H2. repeat split.
  - intros H; inversion H; subst.
    exists (Rel path), s, fi. rewrite H1. repeat split.
Qed.

(** X12 -- Every returned entry is well formed.  Whatever the process has
    done, every entry that [Lstat], [Stat] or [ReadDir] returns has a mode
    that fits [os.FileMode], a size that is not negative, and, when it is a
    submodule, a commit id that [IsAbsoluteRevision] accepts. *)
Theorem returned_entries_well_formed (slow : bool) (r : Repository)
        (commit path : string) (recurse : bool) (s : State) :
  reachable s ->
  (forall fi, fst (Lstat r commit path s) = Ok fi -> entryOK fi)
  /\ (forall fi, fst (Stat r commit path s) = Ok fi -> entryOK fi)
  /\ (forall fis, fst (ReadDir slow r commit path recurse s) = Ok fis ->
                  Forall entryOK fis).
Proof.
  intros Hreach. split; [|split].
  - intros fi. apply Lstat_entryOK.
  - intros fi H.
    destruct (Stat_from_Lstat _ _ _ _ _ H) as (p & s' & fi' & Hl & Hm & Hs & Hy).
    apply Lstat_entryOK in Hl. unfold entryOK in *.
    rewrite Hm, Hs, Hy. exact Hl.
  - intros fis H. unfold ReadDir in H.
    destruct (checkSpecArgSafety commit); [discriminate|].
    match type of H with
    | fst (lsTree _ _ _ ?p _ _) = _ =>
        destruct (lsTree_result slow r commit p recurse s)
          as [Heq|(_ & _ & v & Hin & Hv)]
    end.
    + rewrite Heq in H. eapply lsTreeUncached_entryOK; eassumption.
    + rewrite Hv in H. inversion H; subst v.
      destruct (reachable_faithful s Hreach _ _ Hin) as (r' & c' & _ & Hu).
      eapply lsTreeUncached_entryOK; eassumption.
Qed.

(** X13 -- The URL of a submodule is found on a best effort.  A record that
    is parsed has four fields.  When its type is "commit", the entry's
    [Sys_] holds the record's object id and a URL: what
    [git config --get submodule.<name>.url] printed, white space trimmed,
    when that command exited normally, and the empty URL when it failed;
    [<name>] is the record's path before any trimming, or the queried path
    when the record's path is the shorter; that command is the one
    subprocess the record starts.  A record of another type has no [Sys_]
    and starts no subprocess. *)
Theorem submodule_url_best_effort (r : Repository) (out trimPath : string)
        (prefixLen : Z) (meta recPath : string) (fi : FileInfo)
        (log : list invocation) :
  parseRecord r out trimPath prefixLen meta recPath = (Ok fi, log) ->
  exists modeStr typ oid size3 name,
    SplitN meta SPACE 4 = [modeStr; typ; oid; size3]
    /\ name = (if len recPath <? len trimPath then trimPath else recPath)
    /\ ((typ = "commit"
         /\ log = [configQuery r name]
         /\ exists url,
              Sys_ fi = Some (mkSubmoduleInfo url oid)
              /\ (forall err,
                     snd (runStdout (repoURI r)
                            ["git"; "config"; "--get";
                             ("submodule." ++ name ++ ".url")%string])
                     = Some err -> url = "")
              /\ (snd (runStdout (repoURI r)
                         ["git"; "config"; "--get";
                          ("submodule." ++ name ++ ".url")%string]) = None ->
                  url = TrimSpace
                          (fst (runStdout (repoURI r)
                                  ["git"; "config"; "--get";
                                   ("submodule." ++ name ++ ".url")%string]))))
        \/ (typ <> "commit" /\ log = [] /\ Sys_ fi = None)).
Proof.
  intros H.
  destruct (parseRecord_ok_full _ _ _ _ _ _ _ _ H)
    as (modeStr & typ & oid & size3 & raw & m & Hsplit & _ & _ & _ & Htm & _).
  exists modeStr, typ, oid, size3,
    (if len recPath <? len trimPath then trimPath else recPath).
  split; [assumption|]. split; [reflexivity|].
  destruct (translateMode_sys r typ oid
              (if len recPath <? len trimPath then trimPath else recPath) raw)
    as [(Hc & E)|(Hc & m' & E)]; rewrite E in Htm;
    pose proof (f_equal snd Htm) as Hlog;
    pose proof (f_equal (fun x => match fst x with
                                  | Ok ms => snd ms
                                  | Err _ => None
                                  end) Htm) as Hsys;
    cbn [fst snd] in Hlog, Hsys.
  - left. split; [assumption|]. split; [now symmetry|].
    eexists. split; [symmetry; exact Hsys|]. split.
    + intros err Herr. rewrite Herr. reflexivity.
    + intros Hok. rewrite Hok. reflexivity.
  - right. split; [assumption|]. split; now symmetry.
Qed.

Lemma parseLine_ok_log (r : Repository) (out trimPath : string)
      (prefixLen : Z) (line : string) (fi : FileInfo) (log : list invocation) :
  parseLine r out trimPath prefixLen line = (Ok fi, log) ->
  (isSubmodule fi = true /\ exists name, log = [configQuery r name])
  \/ (isSubmodule fi = false /\ log = []).
Proof.
  intros H.
  destruct (parseLine_ok_record _ _ _ _ _ _ _ H) as (meta & name0 & _ & _ & Hr).
  destruct (parseRecord_ok_full _ _ _ _ _ _ _ _ Hr)
    as (modeStr & typ & oid & size3 & raw & m & _ & _ & _ & _ & Htm & _).
  destruct (translateMode_sys r typ oid
              (if len name0 <? len trimPath then trimPath else name0) raw)
    as [(_ & E)|(_ & m' & E)]; rewrite E in Htm; inversion Htm; subst.
  - left. unfold isSubmodule.
    match goal with H : Some _ = Sys_ fi |- _ => rewrite <- H end.
    split; [reflexivity|]. eexists; reflexivity.
  - right. unfold isSubmodule.
    match goal with H : None = Sys_ fi |- _ => rewrite <- H end.
    split; reflexivity.
Qed.

Lemma parseLines_ok_log (r : Repository) (out trimPath : string)
      (prefixLen : Z) (lines : list string) (fis : list FileInfo)
      (log : list invocation) :
  parseLines r out trimPath prefixLen lines = (Ok fis, log) ->
  List.length log = List.length (filter isSubmodule fis)
  /\ Forall (fun i => exists name, i = configQuery r name) log.
Proof.
  revert fis log; induction lines as [|line rest IH]; simpl; intros fis log H.
  - inversion H; subst. split; [reflexivity|constructor].
  - destruct (parseLine r out trimPath prefixLen line) as [[fi|e1] l1] eqn:Hline;
      unfold bind in H; [|discriminate].
    destruct (parseLines r out trimPath prefixLen rest) as [[fis'|e2] l2] eqn:Hrest;
      simpl in H; inversion H; subst.
    destruct (IH _ _ eq_refl) as [Hlen Hall].
    rewrite app_nil_r, length_app. cbn [filter].
    destruct (parseLine_ok_log _ _ _ _ _ _ _ Hline)
      as [(-> & name & ->)|(-> & ->)]; simpl.
    + split; [lia|]. constructor; [now exists name|assumption].
    + split; assumption.
Qed.

Lemma filter_length_Permutation {A : Type} (f : A -> bool) (l l' : list A) :
  Permutation l l' ->
  List.length (filter f l) = List.length (filter f l').
Proof.
  induction 1 as [|x l l' _ IH|x y l|l l' l'' _ IH1 _ IH2]; simpl.
  - reflexivity.
  - destruct (f x); simpl; lia.
  - destruct (f x), (f y); reflexivity.
  - lia.
Qed.

(** X14 -- One subprocess per submodule.  A listing that succeeds has
    started the listing command first, and after it one
    [git config --get submodule.<name>.url] for each submodule among its
    entries, and nothing else. *)
Theorem one_config_query_per_submodule (r : Repository) (commit path : string)
        (recurse : bool) (fis : list FileInfo) :
  fst (lsTreeUncached r commit path recurse) = Ok fis ->
  exists log,
    snd (lsTreeUncached r commit path recurse)
    = Command (repoURI r) (lsTreeArgs commit path recurse) :: log
    /\ List.length log = List.length (filter isSubmodule fis)
    /\ Forall (fun i => exists name, i = configQuery r name) log.
Proof.
  intros H.
  pose proof (lsTreeUncached_cases r commit path recurse) as Hc.
  cbv zeta in Hc.
  destruct (runCombined (repoURI r) (lsTreeArgs commit path recurse))
    as [out err] eqn:Hrun; cbn [fst snd] in Hc.
  destruct Hc as [(_ & E)|[(_ & msg & _ & E)|[(_ & _ & err' & _ & _ & E)
    |[(_ & _ & err' & _ & _ & E)|[(_ & _ & _ & _ & E)
    |(Habs & Hsafe & -> & Hne & _)]]]]];
    try (rewrite E in H; discriminate).
  rewrite (lsTreeUncached_run _ _ _ _ _ Habs Hsafe Hrun Hne) in H |- *.
  destruct (parseLines r out _ _ _) as [[entries|e] log] eqn:Hp;
    cbn [fst snd] in *; [|discriminate].
  inversion H; subst fis.
  destruct (parseLines_ok_log _ _ _ _ _ _ _ Hp) as [Hlen Hall].
  exists log. split; [reflexivity|]. split; [|assumption].
  rewrite Hlen. apply filter_length_Permutation.
  apply FileInfoSort.Permuted_sort.
Qed.

(** ** [Stat] and [ReadDir] over [Lstat] and the listing *)

(** What [Stat] returns, in terms of what [Lstat] returns in the same
    state. *)
Lemma Stat_result (r : Repository) (commit path : string) (s : State) :
  fst (Stat r commit path s)
  = match checkSpecArgSafety commit with
    | Some msg => Err (UnsafeArgumentError msg)
    | None =>
        match fst (Lstat r commit (Rel path) s) with
        | Err e => Err e
        | Ok fi =>
            if IsSymlink (Mode_ fi) then
              match fileContent (repoURI r) commit (Rel path) with
              | Err e => Err e
              | Ok b =>
                  match fst (Lstat r commit b s) with
                  | Err e => Err e
                  | Ok fi2 =>
                      Ok (mkFileInfo (Name_ fi) (Mode_ fi2) (Size_ fi2) (Sys_ fi2))
                  end
              end
            else Ok fi
        end
    end.
Proof.
  unfold Stat. destruct (checkSpecArgSafety commit); [reflexivity|].
  unfold bindM.
  destruct (Lstat r commit (Rel path) s) as [[fi|e] s1]; cbn [fst];
    [|reflexivity].
  unfold IsSymlink.
  destruct (negb (Z.land (Mode_ fi) ModeSymlink =? 0)); [|reflexivity].
  unfold liftExec, readFileBytes; cbn [fst snd].
  destruct (fileContent (repoURI r) commit (Rel path)) as [b|e]; [|reflexivity].
  match goal with
  | |- fst (match Lstat r commit b ?s2 with _ => _ end) = _ =>
      destruct (Lstat_state r commit b s) as (_ & _ & Hindep & _);
      rewrite <- (Hindep s2);
      destruct (Lstat r commit b s2) as [[fi2|e2] s3]; reflexivity
  end.
Qed.

(** X15 -- [Stat] of what is not a symbolic link is [Lstat].  When [Lstat]
    on the path returns an entry that is not a symbolic link, [Stat]
    returns that entry and leaves the state that [Lstat] leaves: the
    content of no object is read. *)
Theorem Stat_non_symlink_is_Lstat (r : Repository) (commit path : string)
        (s : State) (fi : FileInfo) :
  fst (Lstat r commit (Rel path) s) = Ok fi ->
  IsSymlink (Mode_ fi) = false ->
  Stat r commit path s = Lstat r commit (Rel path) s
  /\ exists log,
       snd (Stat r commit path s)
       = mkState (lsTreeRootCache s) (invocations s ++ log)
       /\ Forall (fun i => isReadFile i = false) log.
Proof.
  intros H Hsym.
  assert (Stat r commit path s = Lstat r commit (Rel path) s) as Heq.
  { destruct (checkSpecArgSafety commit) as [msg|] eqn:Hsafe.
    { rewrite (Lstat_unsafe _ _ _ _ _ Hsafe) in H; discriminate. }
    unfold Stat; rewrite Hsafe; unfold bindM.
    destruct (Lstat r commit (Rel path) s) as [[fi'|e] s1]; cbn [fst] in H;
      [|discriminate].
    inversion H; subst fi'.
    unfold IsSymlink in Hsym. rewrite Hsym. reflexivity. }
  split; [exact Heq|]. rewrite Heq.
  destruct (Lstat_state r commit (Rel path) s) as (log & Hs & _ & Hl).
  exists log. split; assumption.
Qed.

(** X16 -- [Stat] passes errors on.  [Stat] fails with the error of its
    first [Lstat]; on a symbolic link whose content cannot be read, with
    the error of the read; and on a symbolic link whose content names a
    path on which [Lstat] fails -- a dangling link -- with the error of
    that second [Lstat]. *)
Theorem Stat_propagates_errors (r : Repository) (commit path : string)
        (s : State) (e : error) :
  (fst (Lstat r commit (Rel path) s) = Err e ->
   fst (Stat r commit path s) = Err e)
  /\ (forall link,
         fst (Lstat r commit (Rel path) s) = Ok link ->
         IsSymlink (Mode_ link) = true ->
         fileContent (repoURI r) commit (Rel path) = Err e ->
         fst (Stat r commit path s) = Err e)
  /\ (forall link target,
         fst (Lstat r commit (Rel path) s) = Ok link ->
         IsSymlink (Mode_ link) = true ->
         fileContent (repoURI r) commit (Rel path) = Ok target ->
         fst (Lstat r commit target s) = Err e ->
         fst (Stat r commit path s) = Err e).
Proof.
  rewrite Stat_result. split; [|split].
  - intros H.
    destruct (checkSpecArgSafety commit) as [msg|] eqn:Hsafe.
    + rewrite (Lstat_unsafe _ _ _ _ _ Hsafe) in H. exact H.
    + now rewrite H.
  - intros link H Hsym Hfile.
    destruct (checkSpecArgSafety commit) as [msg|] eqn:Hsafe.
    { rewrite (Lstat_unsafe _ _ _ _ _ Hsafe) in H; discriminate. }
    now rewrite H, Hsym, Hfile.
  - intros link target H Hsym Hfile H2.
    destruct (checkSpecArgSafety commit) as [msg|] eqn:Hsafe.
    { rewrite (Lstat_unsafe _ _ _ _ _ Hsafe) in H; discriminate. }
    now rewrite H, Hsym, Hfile, H2.
Qed.

(** X17 -- [Lstat] and [Stat] neither read nor write the cache.  What they
    return is the same in every state, and the cache after the call is the
    cache before it. *)
Theorem Lstat_Stat_ignore_cache (r : Repository) (commit path : string)
        (s s' : State) :
  fst (Lstat r commit path s) = fst (Lstat r commit path s')
  /\ fst (Stat r commit path s) = fst (Stat r commit path s')
  /\ lsTreeRootCache (snd (Lstat r commit path s)) = lsTreeRootCache s
  /\ lsTreeRootCache (snd (Stat r commit path s)) = lsTreeRootCache s.
Proof.
  assert (forall p, fst (Lstat r commit p s) = fst (Lstat r commit p s')) as Hl.
  { intros p. destruct (Lstat_state r commit p s') as (_ & _ & Hindep & _).
    apply Hindep. }
  split; [apply Hl|]. split.
  - rewrite !Stat_result, (Hl (Rel path)).
    destruct (checkSpecArgSafety commit); [reflexivity|].
    destruct (fst (Lstat r commit (Rel path) s')) as [fi|e]; [|reflexivity].
    destruct (IsSymlink (Mode_ fi)); [|reflexivity].
    destruct (fileContent (repoURI r) commit (Rel path)) as [b|e]; [|reflexivity].
    now rewrite (Hl b).
  - split; [apply Lstat_cache|apply Stat_cache].
Qed.

(** X18 -- Only the recursive listing of the root goes through the cache.
    With a non-empty path, or without recursion, [ReadDir] returns what the
    uncached listing returns -- of the cleaned path followed by '/' for a
    non-empty path, which includes the paths that name the root, such as
    "." -- whatever the timing; it leaves the cache as it was, and has
    started exactly the subprocesses of that listing. *)
Theorem ReadDir_uncached_unless_recursive_root (slow : bool) (r : Repository)
        (commit path : string) (recurse : bool) (s : State) :
  checkSpecArgSafety commit = None ->
  path <> EmptyString \/ recurse = false ->
  ReadDir slow r commit path recurse s
  = (fst (lsTreeUncached r commit
            (if (path =? "")%string then ""
             else (Clean (Rel path) ++ "/")%string) recurse),
     mkState (lsTreeRootCache s)
             (invocations s
                ++ snd (lsTreeUncached r commit
                          (if (path =? "")%string then ""
                           else (Clean (Rel path) ++ "/")%string) recurse))).
Proof.
  intros Hsafe Hshape. unfold ReadDir. rewrite Hsafe.
  destruct (String.eqb_spec path "") as [->|Hne]; cbn [negb].
  - destruct Hshape as [Hp | ->]; [now contradiction Hp|].
    rewrite lsTree_bypass by (now right). reflexivity.
  - rewrite lsTree_bypass; [reflexivity|].
    left. destruct (Clean (Rel path)); discriminate.
Qed.

(** ** Names in the listing of a directory *)

Lemma append_nil_r (s : string) : (s ++ "")%string = s.
Proof. induction s as [|a s IH]; simpl; [reflexivity|now rewrite IH]. Qed.

Lemma substring_all (s : string) : String.substring 0 (String.length s) s = s.
Proof. induction s as [|a s IH]; simpl; [reflexivity|now rewrite IH]. Qed.

(** A string that ends with a byte, cut in two: the second part is empty
    or ends with that byte. *)
Lemma append_last_inv (s d b : string) (c : ascii) :
  (s ++ String c "")%string = (d ++ b)%string ->
  b = EmptyString \/ exists b', b = (b' ++ String c "")%string.
Proof.
  revert d; induction s as [|a s IH]; intros [|x d] H; simpl in H.
  - right. exists EmptyString. now rewrite <- H.
  - inversion H as [[Hx Hd]]. destruct d; [|discriminate].
    simpl in Hd. left. now rewrite <- Hd.
  - right. exists (String a s). now rewrite <- H.
  - inversion H as [[Hx Hd]]. eapply IH; eassumption.
Qed.

(** The path that [ReadDir] lists, without its "./", is empty or ends
    with '/'. *)
Lemma TrimPrefix_dir (q : string) :
  TrimPrefix (q ++ "/") "./" = EmptyString
  \/ exists t, TrimPrefix (q ++ "/") "./" = (t ++ "/")%string.
Proof.
  unfold TrimPrefix, HasPrefix.
  destruct (String.prefix "./" (q ++ "/")) eqn:Hp; [|right; now exists q].
  destruct q as [|a [|b q]]; cbn [String.prefix String.append] in Hp.
  - destruct (ascii_dec "." "/"); discriminate.
  - destruct (ascii_dec "." a) as [<-|]; [|discriminate]. left. reflexivity.
  - destruct (ascii_dec "." a) as [<-|]; [|discriminate].
    destruct (ascii_dec "/" b) as [<-|]; [|discriminate].
    right. exists q. cbn [String.append String.length Nat.sub String.substring].
    rewrite Nat.sub_0_r. apply substring_all.
Qed.

(** Such a path is cut by its last '/' at its end. *)
Lemma LastIndexByte_dir (p : string) :
  p = EmptyString \/ (exists t, p = (t ++ "/")%string) ->
  len p = LastIndexByte p SLASH + 1.
Proof.
  intros Hp.
  destruct (LastIndexByte_cut p SLASH) as (dir & base & Hcut & Hlen & Hbase & _).
  assert (base = EmptyString) as ->.
  { destruct Hp as [->|(t & ->)].
    - destruct dir; [simpl in Hcut; now subst|discriminate].
    - destruct (append_last_inv _ _ _ _ Hcut) as [->|(b' & ->)]; [reflexivity|].
      apply countByte_zero_IndexByte in Hbase.
      rewrite countByte_append in Hbase. simpl in Hbase. lia. }
  rewrite append_nil_r in Hcut. subst p. exact Hlen.
Qed.

(** X19 -- [ReadDir] names entries relative to the directory.  In what
    [ReadDir] returns for a non-empty path, the listed path is the
    cleaned path followed by '/'; with [dirPath] that path without a
    leading "./", each entry is named by the path of its record without
    its first [len dirPath] bytes, and by the empty name when the path of
    the record is shorter than [dirPath]. *)
Theorem ReadDir_names_relative (slow : bool) (r : Repository)
        (commit path : string) (recurse : bool) (s : State)
        (fis : list FileInfo) :
  path <> EmptyString ->
  fst (ReadDir slow r commit path recurse s) = Ok fis ->
  let dirPath := TrimPrefix (Clean (Rel path) ++ "/") "./" in
  exists out entries,
    runCombined (repoURI r)
                (lsTreeArgs commit (Clean (Rel path) ++ "/") recurse)
    = (out, None)
    /\ Permutation entries fis
    /\ Forall2 (fun line fi =>
                  exists meta recPath,
                    line = (meta ++ String TAB recPath)%string
                    /\ IndexByte meta TAB = -1
                    /\ (len dirPath <= len recPath ->
                        exists pre, recPath = (pre ++ Name_ fi)%string
                                    /\ len pre = len dirPath)
                    /\ (len recPath < len dirPath -> Name_ fi = EmptyString))
               (removelast (Split out NUL)) entries.
Proof.
  intros Hne H dirPath. unfold ReadDir in H.
  destruct (checkSpecArgSafety commit); [discriminate|].
  destruct (String.eqb_spec path ""); [contradiction|]. cbn [negb] in H.
  rewrite lsTree_bypass in H
    by (left; destruct (Clean (Rel path)); discriminate).
  cbn [liftExec fst] in H.
  destruct (lsTreeUncached_entries _ _ _ _ _ H)
    as (out & entries & Hrun & _ & Hall & Hs).
  exists out, entries. split; [assumption|]. split.
  { subst fis. apply FileInfoSort.Permuted_sort. }
  pose proof (LastIndexByte_dir dirPath (TrimPrefix_dir (Clean (Rel path))))
    as Hlen.
  eapply Forall2_impl; [|exact Hall].
  intros line fi He.
  destruct (entry_name r out _ line fi dirPath EmptyString He
              (eq_sym (append_nil_r dirPath)) Hlen)
    as (meta & recPath & Hl & Hm & _ & Hlong & Hshort).
  exists meta, recPath. repeat split; assumption.
Qed.

End Gitcmd.

(** * Worked examples

    The theorems at work on the repositories of module [Examples], and the
    inputs on which the listing departs from its description. *)

Import Examples.

Local Notation "'demoUncached'" :=
  (lsTreeUncached rejectLeadingDash absCommitOrPanic isAbsoluteRevision
                  modeSubmodule demoGit demoConfig).
Local Notation "'demoLstat'" :=
  (Lstat rejectLeadingDash absCommitOrPanic isAbsoluteRevision modeSubmodule
         relPath demoGit demoConfig).
Local Notation "'demoStat'" :=
  (Stat rejectLeadingDash absCommitOrPanic isAbsoluteRevision modeSubmodule
        relPath demoGit demoConfig demoFile).
Local Notation "'demoReadDir'" :=
  (ReadDir rejectLeadingDash absCommitOrPanic isAbsoluteRevision modeSubmodule
           relPath demoGit demoConfig).
Local Notation "'demoReachable'" :=
  (reachable rejectLeadingDash absCommitOrPanic isAbsoluteRevision
             modeSubmodule relPath demoGit demoConfig demoFile).


(** [Stat] on the symlink [link], whose content is [a/b.txt]. *)
Lemma Stat_resolves_symlink_witness :
  exists fi,
    fst (demoStat demo commit1 "link" initState) = Ok fi
    /\ Name_ fi = "link" /\ Mode_ fi = 33188 /\ Size_ fi = 10.
Proof.
  pose proof (Stat_resolves_symlink rejectLeadingDash absCommitOrPanic
                isAbsoluteRevision modeSubmodule relPath demoGit demoConfig
                demoFile demo commit1 "link" "a/b.txt" initState
                (mkFileInfo "link" ModeSymlink 7 None)
                (mkFileInfo "b.txt" 33188 10 None)) as H.
  do 4 (specialize (H ltac:(reflexivity))).
  destruct H as (fi & Hfi & Hname & Hmode & Hsize).
  exists fi. auto.
Defined.

(** [Stat] on [link2], whose content names the symlink [link]. *)
Lemma Stat_follows_one_link_witness :
  fst (demoStat demo commit1 "link2" initState)
  = Ok (mkFileInfo "link2" ModeSymlink 7 None).
Proof.
  pose proof (Stat_follows_one_link rejectLeadingDash absCommitOrPanic
                isAbsoluteRevision modeSubmodule relPath demoGit demoConfig
                demoFile demo commit1 "link2" "link" initState
                (mkFileInfo "link2" ModeSymlink 4 None)
                (mkFileInfo "link" ModeSymlink 7 None)) as H.
  do 5 (specialize (H ltac:(reflexivity))).
  exact (proj1 H).
Defined.

(** C4, as stated, fails where the subprocess exits with an error and has
    printed nothing: the output is entirely empty, and the listing fails
    with an execution error, which is not a not-found error. *)
Lemma not_found_counterexample :
  demoGit "demo" (lsTreeArgs commit1 "nosuch" false) = ("", Some "exit status 128")
  /\ fst (demoUncached demo commit1 "nosuch" false)
     = Err (ExecError (lsTreeArgs commit1 "nosuch" false) "exit status 128" "")
  /\ ~ (exists e, fst (demoUncached demo commit1 "nosuch" false) = Err e
                  /\ isNotFound e = true).
Proof.
  split; [reflexivity|]. split; [reflexivity|].
  intros (e & He & Hnf). inversion He; subst. discriminate.
Defined.

(** [Lstat] on a path that the commit does not hold: the output is empty,
    the listing and [Lstat] fail with a not-found error. *)
Lemma not_found_conditions_witness :
  rejectLeadingDash commit1 = None
  /\ GoFilepath.Clean (relPath "missing") <> "."
  /\ fst (demoLstat demo commit1 "missing" initState)
     = Err (PathError "git ls-tree" "missing").
Proof.
  assert (GoFilepath.Clean (relPath "missing") <> ".") as Hroot by discriminate.
  split; [reflexivity|]. split; [exact Hroot|].
  pose proof (proj2 (not_found_conditions rejectLeadingDash absCommitOrPanic
                       isAbsoluteRevision modeSubmodule relPath demoGit
                       demoConfig demo commit1 "missing" false) initState) as H.
  specialize (H ltac:(reflexivity) Hroot).
  exact H.
Defined.

(** A record without a tab. *)
Lemma malformed_output_rejected_witness :
  exists e, fst (demoUncached demo commit1 "notab" false) = Err e
            /\ isMalformedOutput e = true.
Proof.
  pose proof (malformed_output_rejected rejectLeadingDash absCommitOrPanic
                isAbsoluteRevision modeSubmodule demoGit demoConfig
                demo commit1 "notab" false
                ("100644 blob " ++ oidA ++ " 1 notab" ++ String NUL "")%string
                ("100644 blob " ++ oidA ++ " 1 notab")%string) as H.
  do 3 (specialize (H ltac:(reflexivity))).
  apply H.
  - left; reflexivity.
  - apply defect_no_tab. reflexivity.
Defined.

(** A commit id beginning with a dash: nothing is run. *)
Lemma guard_precedes_execution_witness :
  rejectLeadingDash "-x" = Some "invalid git revision spec (begins with '-'): -x"
  /\ demoReadDir false demo "-x" "a" true initState
     = (Err (UnsafeArgumentError "invalid git revision spec (begins with '-'): -x"),
        initState)
  /\ invocations (snd (demoStat demo "-x" "link" initState)) = [].
Proof.
  assert (rejectLeadingDash "-x"
          = Some "invalid git revision spec (begins with '-'): -x") as Hguard
      by reflexivity.
  split; [exact Hguard|].
  destruct (guard_precedes_execution rejectLeadingDash absCommitOrPanic
              isAbsoluteRevision modeSubmodule relPath demoGit demoConfig
              demoFile demo "-x" "a"
              "invalid git revision spec (begins with '-'): -x" true false
              initState Hguard) as ((_ & _ & Hread) & _).
  split; [exact Hread|].
  destruct (guard_precedes_execution rejectLeadingDash absCommitOrPanic
              isAbsoluteRevision modeSubmodule relPath demoGit demoConfig
              demoFile demo "-x" "link"
              "invalid git revision spec (begins with '-'): -x" true false
              initState Hguard) as (_ & _ & Hstat & _).
  exact Hstat.
Defined.



(** C8, as stated, fails on the path [a/sub/x] below the submodule
    [a/sub]: the record's path [a/sub] is shorter than the queried path,
    and the entry is named by the final segment [x] of the queried path,
    not by the queried path itself. *)
Lemma name_fallback_counterexample :
  demoGit "demo" (lsTreeArgs commit1 "a/sub/x" false)
  = (record "160000" "commit" oidB "      -" "a/sub", None)
  /\ fst (demoUncached demo commit1 "a/sub/x" false)
     = Ok [mkFileInfo "x" 67166208 0 (Some (mkSubmoduleInfo "" oidB))]
  /\ Name_ (mkFileInfo "x" 67166208 0 (Some (mkSubmoduleInfo "" oidB)))
     <> "a/sub/x".
Proof.
  split; [reflexivity|]. split; [reflexivity|]. discriminate.
Defined.

(** The listing of [a/]: the entry of [a/b.txt] is named [b.txt]. *)
Lemma name_derivation_witness :
  exists entries,
    Permutation entries [mkFileInfo "b.txt" 33188 10 None]
    /\ Forall2 (fun line fi =>
                  exists meta recPath,
                    line = (meta ++ String TAB recPath)%string
                    /\ GoStrings.IndexByte meta TAB = -1
                    /\ nameDerived "a/" "a/" "" recPath (Name_ fi))
               [recordLine "100644" "blob" oidB "     10" "a/b.txt"] entries.
Proof.
  pose proof (name_derivation rejectLeadingDash absCommitOrPanic
                isAbsoluteRevision modeSubmodule demoGit demoConfig
                demo commit1 "a/" false [mkFileInfo "b.txt" 33188 10 None]) as H.
  specialize (H ltac:(reflexivity)).
  destruct H
    as (out & entries & dir & base & Hrun & Hperm & Hcut & Hbase & Hdir & Hall).
  change (GoStrings.TrimPrefix "a/" "./") with "a/" in *.
  assert (out = fst (demoGit "demo" (lsTreeArgs commit1 "a/" false))) as Hout
      by exact (eq_sym (f_equal fst Hrun)).
  assert (dir = "a/" /\ base = "") as [-> ->].
  { destruct Hdir as [->|(d & ->)].
    - simpl in Hcut. subst base. cbv in Hbase. discriminate Hbase.
    - destruct d as [|x [|y d]]; simpl in Hcut.
      + inversion Hcut.
      + inversion Hcut; subst. auto.
      + inversion Hcut as [[Hx Hy Hrest]]. destruct d; discriminate Hrest. }
  exists entries. split; [assumption|].
  rewrite Hout in Hall. exact Hall.
Defined.



(** ** Two requests under one cache key *)

Lemma hexChar_not_NUL (n : nat) : GoStrings.byte_eqb (hexChar n) NUL = false.
Proof.
  unfold hexChar.
  do 16 (destruct n as [|n]; [reflexivity|]). reflexivity.
Qed.

Lemma fileName_free (i : nat) : GoStrings.IndexByte (fileName i) NUL = -1.
Proof.
  unfold fileName. cbn [GoStrings.IndexByte].
  now rewrite !hexChar_not_NUL.
Qed.

Lemma bigNames_length : List.length bigNames = (5 * 1000 + 1)%nat.
Proof. unfold bigNames. now rewrite length_map, length_seq. Qed.

Lemma bigNames_free : Forall (fun name => GoStrings.IndexByte name NUL = -1) bigNames.
Proof.
  apply Forall_forall. intros name Hin.
  apply in_map_iff in Hin. destruct Hin as (i & <- & _). apply fileName_free.
Qed.

(** The root listing of [big] at [commit1] has 5001 entries, whichever
    [ensureAbsCommit] is in force. *)
Lemma big_listing (ensureAbs : string -> bool) :
  ensureAbs commit1 = true ->
  exists entries,
    fst (lsTreeUncached rejectLeadingDash ensureAbs isAbsoluteRevision
                        modeSubmodule crowdedGit demoConfig big commit1 "" true)
    = Ok entries
    /\ List.length entries = (5 * 1000 + 1)%nat.
Proof.
  intros Habs.
  assert (bigNames <> []) as Hne.
  { intros H. pose proof bigNames_length as Hl. rewrite H in Hl. discriminate Hl. }
  assert (crowdedGit (repoURI big) (lsTreeArgs commit1 "" true)
          = (listingOf oidA bigNames, None)) as Hrun by reflexivity.
  pose proof (listing_of_files rejectLeadingDash ensureAbs isAbsoluteRevision
                modeSubmodule crowdedGit demoConfig big commit1 oidA bigNames
                Habs) as H.
  do 5 (specialize (H ltac:(reflexivity))).
  specialize (H Hne bigNames_free Hrun).
  destruct H as (entries & Hu & Hlen).
  exists entries. split; [assumption|]. now rewrite Hlen, bigNames_length.
Qed.


(** * Further worked examples *)

Local Notation "'demoLsTree'" :=
  (lsTree rejectLeadingDash absCommitOrPanic isAbsoluteRevision modeSubmodule
          demoGit demoConfig).
Local Notation "'bigLsTree'" :=
  (lsTree rejectLeadingDash absCommitOrPanic isAbsoluteRevision modeSubmodule
          crowdedGit demoConfig).
Local Notation "'bigUncached'" :=
  (lsTreeUncached rejectLeadingDash absCommitOrPanic isAbsoluteRevision
                  modeSubmodule crowdedGit demoConfig).
Local Notation "'bigReachable'" :=
  (reachable rejectLeadingDash absCommitOrPanic isAbsoluteRevision
             modeSubmodule relPath crowdedGit demoConfig demoFile).

(** The root, asked for as "/". *)
Lemma root_needs_no_subprocess_witness :
  demoLstat demo commit1 "/" initState
  = (Ok (mkFileInfo "" ModeDir 0 None), initState)
  /\ demoStat demo commit1 "/" initState
     = (Ok (mkFileInfo "" ModeDir 0 None), initState).
Proof.
  pose proof (root_needs_no_subprocess rejectLeadingDash absCommitOrPanic
                isAbsoluteRevision modeSubmodule relPath demoGit demoConfig
                demoFile demo commit1 "/" initState) as H.
  specialize (H ltac:(reflexivity)).
  destruct H as [H1 H2].
  specialize (H1 ltac:(reflexivity)). specialize (H2 ltac:(reflexivity)).
  split; [exact H1|exact H2].
Defined.

(** A commit id that is not an absolute revision. *)
Lemma only_ensureAbsCommit_panics_witness :
  fst (demoUncached demo "master" "a" false) = Err (GoPanic "ensureAbsCommit")
  /\ absCommitOrPanic "master" = false.
Proof.
  assert (fst (demoUncached demo "master" "a" false)
          = Err (GoPanic "ensureAbsCommit")) as Hp by reflexivity.
  split; [exact Hp|].
  exact (proj1 (only_ensureAbsCommit_panics rejectLeadingDash absCommitOrPanic
                  isAbsoluteRevision modeSubmodule relPath demoGit demoConfig
                  false demo "master" "a" "ensureAbsCommit" false initState)
               Hp).
Defined.

(** A path that begins with a dash. *)
Lemma unsafe_path_runs_nothing_witness :
  demoUncached demo commit1 "-rf" false
  = (Err (UnsafeArgumentError
            "invalid git revision spec (begins with '-'): -rf"), [])
  /\ demoLstat demo commit1 "-rf" initState
     = (Err (UnsafeArgumentError
               "invalid git revision spec (begins with '-'): -rf"), initState)
  /\ demoReadDir true demo commit1 "-rf" true initState
     = (Err (UnsafeArgumentError
               "invalid git revision spec (begins with '-'): -rf/"), initState).
Proof.
  pose proof (unsafe_path_runs_nothing rejectLeadingDash absCommitOrPanic
                isAbsoluteRevision modeSubmodule relPath demoGit demoConfig
                true demo commit1 "-rf"
                "invalid git revision spec (begins with '-'): -rf" true
                initState) as H.
  specialize (H ltac:(reflexivity)).
  destruct H as (H1 & H2 & _).
  specialize (H1 ltac:(reflexivity)).
  specialize (H2 ltac:(reflexivity)). specialize (H2 ltac:(discriminate)).
  specialize (H2 ltac:(reflexivity)).
  pose proof (unsafe_path_runs_nothing rejectLeadingDash absCommitOrPanic
                isAbsoluteRevision modeSubmodule relPath demoGit demoConfig
                true demo commit1 "-rf"
                "invalid git revision spec (begins with '-'): -rf/" true
                initState) as H'.
  specialize (H' ltac:(reflexivity)).
  destruct H' as (_ & _ & H3).
  specialize (H3 ltac:(reflexivity)). specialize (H3 ltac:(discriminate)).
  specialize (H3 ltac:(reflexivity)).
  split; [exact H1|]. split; [exact H2|exact H3].
Defined.

(** A path for which the tool fails without printing anything. *)
Lemma exec_error_not_parsed_witness :
  demoUncached demo commit1 "nosuch" false
  = (Err (ExecError (lsTreeArgs commit1 "nosuch" false) "exit status 128" ""),
     [Command "demo" (lsTreeArgs commit1 "nosuch" false)]).
Proof.
  pose proof (exec_error_not_parsed rejectLeadingDash absCommitOrPanic
                isAbsoluteRevision modeSubmodule demoGit demoConfig
                demo commit1 "nosuch" "" "exit status 128" false) as H.
  do 4 (specialize (H ltac:(reflexivity))).
  exact H.
Defined.

(** A tool that prints a warning only. *)
Lemma output_without_NUL_lists_nothing_witness :
  lsTreeUncached rejectLeadingDash absCommitOrPanic isAbsoluteRevision
                 modeSubmodule chattyGit demoConfig demo commit1 "a" false
  = (Ok [], [Command "demo" (lsTreeArgs commit1 "a" false)])
  /\ fst (Lstat rejectLeadingDash absCommitOrPanic isAbsoluteRevision
                modeSubmodule relPath chattyGit demoConfig
                demo commit1 "a" initState)
     = Err (PathError "ls-tree" "a").
Proof.
  pose proof (output_without_NUL_lists_nothing rejectLeadingDash
                absCommitOrPanic isAbsoluteRevision modeSubmodule relPath
                chattyGit demoConfig demo commit1 "a"
                "warning: refname is ambiguous." false) as H.
  do 3 (specialize (H ltac:(reflexivity))).
  specialize (H ltac:(discriminate)). specialize (H ltac:(reflexivity)).
  destruct H as [H1 H2]. split; [exact H1|].
  specialize (H2 "a" initState).
  do 2 (specialize (H2 ltac:(reflexivity))).
  specialize (H2 ltac:(discriminate)). specialize (H2 ltac:(reflexivity)).
  exact H2.
Defined.

(** The root of [demo], asked for again after a first listing. *)
Lemma ReadDir_transparent_without_colon_witness :
  fst (demoReadDir false demo commit1 "" true
                   (snd (demoReadDir true demo commit1 "" true initState)))
  = fst (demoUncached demo commit1 "" true).
Proof.
  pose proof (ReadDir_transparent_without_colon rejectLeadingDash
                absCommitOrPanic isAbsoluteRevision modeSubmodule relPath
                demoGit demoConfig demoFile false demo commit1 "" true
                (snd (demoReadDir true demo commit1 "" true initState))) as H.
  specialize (H ltac:(apply reach_ReadDir, reach_init)).
  do 3 (specialize (H ltac:(reflexivity))).
  exact H.
Defined.

(** The listing of [big], of 5001 entries, once it took long. *)
Lemma cached_listings_are_large_witness :
  exists entries,
    In (cacheKey big commit1 "", entries)
       (lsTreeRootCache (snd (bigLsTree true big commit1 "" true initState)))
    /\ 5000 < Z.of_nat (List.length entries).
Proof.
  destruct (big_listing absCommitOrPanic eq_refl) as (entries & Hu & Hlen).
  assert (5000 < Z.of_nat (List.length entries)) as Hbig
      by (rewrite Hlen; lia).
  pose proof (stored_listing_In rejectLeadingDash absCommitOrPanic isAbsoluteRevision
                modeSubmodule crowdedGit demoConfig big commit1 entries
                initState eq_refl Hu Hbig) as Hin.
  exists entries. split; [exact Hin|].
  refine (proj1 (cached_listings_are_large rejectLeadingDash absCommitOrPanic
                   isAbsoluteRevision modeSubmodule relPath crowdedGit
                   demoConfig demoFile _ _ _ _ Hin)).
  apply reach_lsTree, reach_init.
Defined.

(** The state after a listing of the root of [demo]. *)
Lemma cache_holds_at_most_five_witness :
  (List.length
     (lsTreeRootCache (snd (demoReadDir true demo commit1 "" true initState)))
   <= lru.MaxEntries)%nat
  /\ NoDup (map fst
              (lsTreeRootCache
                 (snd (demoReadDir true demo commit1 "" true initState)))).
Proof.
  apply (cache_holds_at_most_five rejectLeadingDash absCommitOrPanic
           isAbsoluteRevision modeSubmodule relPath demoGit demoConfig demoFile).
  apply reach_ReadDir, reach_init.
Defined.

(** The listing of [big] asked for twice. *)
Lemma stored_listing_served_from_cache_witness :
  exists entries,
    fst (bigUncached big commit1 "" true) = Ok entries
    /\ fst (bigLsTree false big commit1 "" true
                      (snd (bigLsTree true big commit1 "" true initState)))
       = Ok entries
    /\ invocations
         (snd (bigLsTree false big commit1 "" true
                         (snd (bigLsTree true big commit1 "" true initState))))
       = invocations (snd (bigLsTree true big commit1 "" true initState)).
Proof.
  destruct (big_listing absCommitOrPanic eq_refl) as (entries & Hu & Hlen).
  assert (5000 < Z.of_nat (List.length entries)) as Hbig
      by (rewrite Hlen; lia).
  exists entries. split; [exact Hu|].
  exact (stored_listing_served_from_cache rejectLeadingDash absCommitOrPanic
           isAbsoluteRevision modeSubmodule crowdedGit demoConfig
           false big commit1 entries initState eq_refl Hu Hbig).
Defined.

(** The root listing of [demo] has five entries: it is not stored, however
    long it took. *)
Lemma fast_or_small_listing_not_stored_witness :
  lsTreeRootCache (snd (demoLsTree true demo commit1 "" true initState)) = [].
Proof.
  pose proof (fast_or_small_listing_not_stored rejectLeadingDash
                absCommitOrPanic isAbsoluteRevision modeSubmodule demoGit
                demoConfig true demo commit1 initState) as H.
  specialize (H ltac:(reflexivity)).
  assert (forall entries,
             fst (demoUncached demo commit1 "" true) = Ok entries ->
             Z.of_nat (List.length entries) <= 5000) as Hsmall.
  { intros entries He.
    assert (List.length entries = 5%nat) as Hl.
    { change (match Ok entries with
              | Ok l => List.length l
              | Err _ => 5%nat
              end = 5%nat).
      rewrite <- He. reflexivity. }
    rewrite Hl. lia. }
  specialize (H (or_intror Hsmall)).
  rewrite H. reflexivity.
Defined.

(** The submodule [sub], as [Lstat] returns it. *)
Lemma returned_entries_well_formed_witness :
  fst (demoLstat demo commit1 "sub" initState)
  = Ok (mkFileInfo "sub" 67166208 0
                   (Some (mkSubmoduleInfo "https://example.com/sub.git" oidB)))
  /\ entryOK isAbsoluteRevision
             (mkFileInfo "sub" 67166208 0
                (Some (mkSubmoduleInfo "https://example.com/sub.git" oidB))).
Proof.
  assert (fst (demoLstat demo commit1 "sub" initState)
          = Ok (mkFileInfo "sub" 67166208 0
                  (Some (mkSubmoduleInfo "https://example.com/sub.git" oidB))))
    as Hl by reflexivity.
  split; [exact Hl|].
  pose proof (returned_entries_well_formed rejectLeadingDash absCommitOrPanic
                isAbsoluteRevision modeSubmodule relPath demoGit demoConfig
                demoFile false demo commit1 "sub" false initState) as H.
  specialize (H ltac:(apply reach_init)).
  exact (proj1 H _ Hl).
Defined.

(** The record of the submodule [sub] in a listing of the root. *)
Lemma submodule_url_best_effort_witness :
  parseRecord isAbsoluteRevision modeSubmodule demoConfig demo "" "" 0
              (metaBlock "160000" "commit" oidB "      -") "sub"
  = (Ok (mkFileInfo "sub" 67166208 0
           (Some (mkSubmoduleInfo "https://example.com/sub.git" oidB))),
     [configQuery demo "sub"])
  /\ exists modeStr typ oid size3 name,
       GoStrings.SplitN (metaBlock "160000" "commit" oidB "      -") SPACE 4
       = [modeStr; typ; oid; size3]
       /\ name = "sub"
       /\ ((typ = "commit"
            /\ [configQuery demo "sub"] = [configQuery demo name]
            /\ exists url,
                 Some (mkSubmoduleInfo "https://example.com/sub.git" oidB)
                 = Some (mkSubmoduleInfo url oid)
                 /\ (forall err,
                        snd (demoConfig "demo"
                               ["git"; "config"; "--get";
                                ("submodule." ++ name ++ ".url")%string])
                        = Some err -> url = "")
                 /\ (snd (demoConfig "demo"
                            ["git"; "config"; "--get";
                             ("submodule." ++ name ++ ".url")%string]) = None ->
                     url = GoStrings.TrimSpace
                             (fst (demoConfig "demo"
                                     ["git"; "config"; "--get";
                                      ("submodule." ++ name ++ ".url")%string]))))
           \/ (typ <> "commit"
               /\ [configQuery demo "sub"] = []
               /\ Some (mkSubmoduleInfo "https://example.com/sub.git" oidB)
                  = None)).
Proof.
  assert (parseRecord isAbsoluteRevision modeSubmodule demoConfig demo "" "" 0
                      (metaBlock "160000" "commit" oidB "      -") "sub"
          = (Ok (mkFileInfo "sub" 67166208 0
                   (Some (mkSubmoduleInfo "https://example.com/sub.git" oidB))),
             [configQuery demo "sub"])) as Hp by reflexivity.
  split; [exact Hp|].
  exact (submodule_url_best_effort isAbsoluteRevision modeSubmodule demoConfig
           demo "" "" 0 (metaBlock "160000" "commit" oidB "      -") "sub"
           _ _ Hp).
Defined.

(** The listing of the submodule [sub]: the listing command, then one
    query for the URL. *)
Lemma one_config_query_per_submodule_witness :
  fst (demoUncached demo commit1 "sub" false)
  = Ok [mkFileInfo "sub" 67166208 0
          (Some (mkSubmoduleInfo "https://example.com/sub.git" oidB))]
  /\ exists log,
       snd (demoUncached demo commit1 "sub" false)
       = Command "demo" (lsTreeArgs commit1 "sub" false) :: log
       /\ List.length log = 1%nat
       /\ Forall (fun i => exists name, i = configQuery demo name) log.
Proof.
  assert (fst (demoUncached demo commit1 "sub" false)
          = Ok [mkFileInfo "sub" 67166208 0
                  (Some (mkSubmoduleInfo "https://example.com/sub.git" oidB))])
    as Hu by reflexivity.
  split; [exact Hu|].
  exact (one_config_query_per_submodule rejectLeadingDash absCommitOrPanic
           isAbsoluteRevision modeSubmodule demoGit demoConfig
           demo commit1 "sub" false _ Hu).
Defined.

(** [Stat] on the regular file [a/b.txt]. *)
Lemma Stat_non_symlink_is_Lstat_witness :
  fst (demoLstat demo commit1 (relPath "a/b.txt") initState)
  = Ok (mkFileInfo "b.txt" 33188 10 None)
  /\ IsSymlink 33188 = false
  /\ demoStat demo commit1 "a/b.txt" initState
     = demoLstat demo commit1 (relPath "a/b.txt") initState.
Proof.
  assert (fst (demoLstat demo commit1 (relPath "a/b.txt") initState)
          = Ok (mkFileInfo "b.txt" 33188 10 None)) as Hl by reflexivity.
  assert (IsSymlink 33188 = false) as Hs by reflexivity.
  split; [exact Hl|]. split; [exact Hs|].
  exact (proj1 (Stat_non_symlink_is_Lstat rejectLeadingDash absCommitOrPanic
                  isAbsoluteRevision modeSubmodule relPath demoGit demoConfig
                  demoFile demo commit1 "a/b.txt" initState
                  (mkFileInfo "b.txt" 33188 10 None) Hl Hs)).
Defined.

(** [Stat] on a path that the commit does not hold. *)
Lemma Stat_propagates_errors_witness :
  fst (demoLstat demo commit1 (relPath "missing") initState)
  = Err (PathError "git ls-tree" "missing")
  /\ fst (demoStat demo commit1 "missing" initState)
     = Err (PathError "git ls-tree" "missing").
Proof.
  assert (fst (demoLstat demo commit1 (relPath "missing") initState)
          = Err (PathError "git ls-tree" "missing")) as Hl by reflexivity.
  split; [exact Hl|].
  exact (proj1 (Stat_propagates_errors rejectLeadingDash absCommitOrPanic
                  isAbsoluteRevision modeSubmodule relPath demoGit demoConfig
                  demoFile demo commit1 "missing" initState
                  (PathError "git ls-tree" "missing")) Hl).
Defined.

(** The directory [a], in a state that holds something under the key of
    the root. *)
Lemma ReadDir_uncached_unless_recursive_root_witness :
  demoReadDir true demo commit1 "a" false
              (mkState [(cacheKey demo commit1 "", [])] [])
  = (Ok [mkFileInfo "b.txt" 33188 10 None],
     mkState [(cacheKey demo commit1 "", [])]
             [Command "demo" (lsTreeArgs commit1 "a/" false)]).
Proof.
  pose proof (ReadDir_uncached_unless_recursive_root rejectLeadingDash
                absCommitOrPanic isAbsoluteRevision modeSubmodule relPath
                demoGit demoConfig true demo commit1 "a" false
                (mkState [(cacheKey demo commit1 "", [])] [])) as H.
  specialize (H ltac:(reflexivity)). specialize (H ltac:(left; discriminate)).
  exact H.
Defined.

(** The directory [a]: its one entry is named [b.txt], the path [a/b.txt]
    of the record without its first two bytes. *)
Lemma ReadDir_names_relative_witness :
  fst (demoReadDir false demo commit1 "a" false initState)
  = Ok [mkFileInfo "b.txt" 33188 10 None]
  /\ exists out entries,
       demoGit "demo" (lsTreeArgs commit1 "a/" false) = (out, None)
       /\ Permutation entries [mkFileInfo "b.txt" 33188 10 None]
       /\ Forall2 (fun line fi =>
                     exists meta recPath,
                       line = (meta ++ String TAB recPath)%string
                       /\ GoStrings.IndexByte meta TAB = -1
                       /\ (GoStrings.len "a/" <= GoStrings.len recPath ->
                           exists pre, recPath = (pre ++ Name_ fi)%string
                                       /\ GoStrings.len pre = GoStrings.len "a/")
                       /\ (GoStrings.len recPath < GoStrings.len "a/" ->
                           Name_ fi = EmptyString))
                  (removelast (GoStrings.Split out NUL)) entries.
Proof.
  assert (fst (demoReadDir false demo commit1 "a" false initState)
          = Ok [mkFileInfo "b.txt" 33188 10 None]) as Hr by reflexivity.
  split; [exact Hr|].
  pose proof (ReadDir_names_relative rejectLeadingDash absCommitOrPanic
                isAbsoluteRevision modeSubmodule relPath demoGit demoConfig
                false demo commit1 "a" false initState
                [mkFileInfo "b.txt" 33188 10 None]) as H.
  specialize (H ltac:(discriminate) Hr).
  exact H.
Defined.

(** * The saved query form *)

Import SavedQueryForm.

Lemma find_filter {A : Type} (p q : A -> bool) (l : list A) (x : A) :
  find p l = Some x -> q x = true -> find p (filter q l) = Some x.
Proof.
  induction l as [|a l IH]; simpl; [discriminate|].
  destruct (p a) eqn:Hp.
  - intros H Hq. inversion H; subst a. rewrite Hq. simpl. now rewrite Hp.
  - intros H Hq. destruct (q a); [simpl; rewrite Hp|]; now apply IH.
Qed.

(** What one event does to the log and to the flag. *)
Lemma handle_log (e : Event) (st st1 : SavedQueryForm.State) (log1 : list string) :
  handle e st = Some (st1, log1) ->
  (log1 = []
   /\ sawUnsupportedNotifyQueryWarning st1 = sawUnsupportedNotifyQueryWarning st)
  \/ (exists q, e = QueryChange q
                /\ log1 = ["SavedSearchUnsupportedNotifyQueryWarning"%string]
                /\ sawUnsupportedNotifyQueryWarning st = false
                /\ sawUnsupportedNotifyQueryWarning st1 = true).
Proof.
  destruct e as [q|key t| | | |err|subjects]; simpl;
    try (intros H; inversion H; subst; left; split; reflexivity).
  - unfold handleQueryChange. cbv zeta.
    destruct (sawUnsupportedNotifyQueryWarning st) eqn:Hsaw; cbn [negb andb].
    + intros H; inversion H; subst. left. split; [reflexivity|exact Hsaw].
    + destruct (isUnsupportedNotifyQuery _); intros H; inversion H; subst.
      * right. exists q. repeat split.
      * left. split; [reflexivity|exact Hsaw].
  - unfold createInputChangeHandler. cbv zeta.
    destruct key, (type t =? "checkbox")%string; intros H; inversion H; subst;
      left; split; reflexivity.
Qed.

(** X20 -- The warning is logged at most once.  Over any sequence of
    events of a mounted form, [SavedSearchUnsupportedNotifyQueryWarning] is
    sent to the event logger at most once, and nothing else is; it is not
    sent once the flag [sawUnsupportedNotifyQueryWarning] is set; the flag
    is never reset, and is set when the warning has been sent; and no
    event other than a change of the query sends it. *)
Theorem warning_logged_at_most_once (events : list Event)
        (st st' : SavedQueryForm.State) (log : list string) :
  run events st = Some (st', log) ->
  (log = [] \/ log = ["SavedSearchUnsupportedNotifyQueryWarning"%string])
  /\ (sawUnsupportedNotifyQueryWarning st = true ->
      log = [] /\ sawUnsupportedNotifyQueryWarning st' = true)
  /\ (log <> [] -> sawUnsupportedNotifyQueryWarning st' = true)
  /\ (Forall (fun e => forall q, e <> QueryChange q) events -> log = []).
Proof.
  revert st st' log. induction events as [|e rest IH]; intros st st' log; simpl.
  - intros H; inversion H; subst.
    split; [now left|]. split; [intros Hs; now split|].
    split; [intros Hne; now contradiction Hne|reflexivity].
  - destruct (handle e st) as [[st1 log1]|] eqn:He; [|discriminate].
    destruct (run rest st1) as [[st2 log2]|] eqn:Hr; [|discriminate].
    intros H; inversion H; subst; clear H.
    destruct (IH _ _ _ Hr) as (Hshape & Hset & Hflag & Honly).
    destruct (handle_log _ _ _ _ He) as [(-> & Hsame)|(q & -> & -> & Hno & Hyes)];
      cbn [app].
    + split; [exact Hshape|].
      split; [intros Hs; apply Hset; now rewrite Hsame|].
      split; [exact Hflag|].
      intros Hall. inversion Hall; subst. now apply Honly.
    + destruct (Hset Hyes) as [-> Hfinal].
      split; [now right|].
      split; [intros Hs; rewrite Hno in Hs; discriminate|].
      split; [intros _; exact Hfinal|].
      intros Hall. inversion Hall as [|? ? Hq _]; subst.
      now contradiction (Hq q).
Qed.

(** A form opened without defaults: a query is typed, e-mail notification
    is switched on, and the query is edited three more times. *)
Lemma warning_logged_at_most_once_witness :
  run [QueryChange "repo:x foo";
       InputChange KeyNotify (mkTarget "on" true "checkbox");
       QueryChange "repo:x foo bar";
       QueryChange "repo:x type:diff foo";
       QueryChange "repo:x baz"]
      (constructor None)
  = Some (SavedQueryForm.mkState
            (mkFields "" "repo:x baz" "" false true false [] [])
            [] false false None true,
          ["SavedSearchUnsupportedNotifyQueryWarning"%string])
  /\ sawUnsupportedNotifyQueryWarning
       (SavedQueryForm.mkState
          (mkFields "" "repo:x baz" "" false true false [] [])
          [] false false None true) = true.
Proof.
  assert (run [QueryChange "repo:x foo";
               InputChange KeyNotify (mkTarget "on" true "checkbox");
               QueryChange "repo:x foo bar";
               QueryChange "repo:x type:diff foo";
               QueryChange "repo:x baz"]
              (constructor None)
          = Some (SavedQueryForm.mkState
                    (mkFields "" "repo:x baz" "" false true false [] [])
                    [] false false None true,
                  ["SavedSearchUnsupportedNotifyQueryWarning"%string])) as Hrun
      by reflexivity.
  split; [exact Hrun|].
  apply (proj1 (proj2 (proj2 (warning_logged_at_most_once _ _ _ _ Hrun)))).
  discriminate.
Defined.

(** X21 -- Saving to an organization names it.  When [savingToOrg] holds,
    which enables the Slack checkbox, [saveTargetName] is defined and is
    the name of an organization among the subject options whose id is the
    chosen subject. *)
Theorem savingToOrg_names_org (st : SavedQueryForm.State) :
  savingToOrg st = true ->
  exists name,
    saveTargetName st = Some name
    /\ In (Org (subject (values st)) name) (subjectOptions st).
Proof.
  unfold savingToOrg.
  destruct (find (fun o => (subjectId o =? subject (values st))%string)
                 (subjectOptions st)) as [[id u|id name|t id]|] eqn:Hf;
    try discriminate.
  intros _. exists name. split.
  - unfold saveTargetName.
    rewrite (find_filter _ isOrgOrUser _ _ Hf eq_refl). reflexivity.
  - apply find_some in Hf. destruct Hf as [Hin Heq].
    cbn [subjectId] in Heq. apply String.eqb_eq in Heq. now subst id.
Qed.

(** A user and two organizations, the second organization chosen. *)
Lemma savingToOrg_names_org_witness :
  exists name,
    saveTargetName
      (SavedQueryForm.mkState
         (mkFields "d" "q" "org2" false false true [] [])
         [OtherSubject "Site" "site"; User "u1" "alice"; Org "org1" "acme";
          Org "org2" "initech"]
         false false None false)
    = Some name
    /\ In (Org "org2" name)
          [OtherSubject "Site" "site"; User "u1" "alice"; Org "org1" "acme";
           Org "org2" "initech"].
Proof.
  pose proof (savingToOrg_names_org
                (SavedQueryForm.mkState
                   (mkFields "d" "q" "org2" false false true [] [])
                   [OtherSubject "Site" "site"; User "u1" "alice";
                    Org "org1" "acme"; Org "org2" "initech"]
                   false false None false)) as H.
  specialize (H ltac:(reflexivity)).
  exact H.
Defined.

(** The first subject with an id is the first subject with its id. *)
Lemma find_first_id (subjects : list ConfigurationSubject)
      (s0 : ConfigurationSubject) :
  find (fun s => truthy (subjectId s)) subjects = Some s0 ->
  find (fun o => (subjectId o =? subjectId s0)%string) subjects = Some s0
  /\ subjectId s0 <> EmptyString.
Proof.
  intros H.
  assert (subjectId s0 <> EmptyString) as Hid.
  { apply find_some in H. destruct H as [_ Ht]. unfold truthy in Ht.
    intros E. rewrite E in Ht. discriminate. }
  split; [|exact Hid].
  induction subjects as [|a l IH]; simpl in *; [discriminate|].
  destruct (truthy (subjectId a)) eqn:Ht.
  - inversion H; subst a. now rewrite String.eqb_refl.
  - unfold truthy in Ht. apply Bool.negb_false_iff, String.eqb_eq in Ht.
    rewrite Ht.
    destruct (String.eqb_spec "" (subjectId s0)) as [E|_];
      [now contradiction Hid|].
    now apply IH.
Qed.

(** X22 -- The default save location.  When the configuration arrives, a
    subject that is already chosen is kept.  With no subject chosen, the
    form takes the first subject that has an id: Slack notifications are
    then available exactly when that subject is an organization, and the
    name shown for the save target is the short label of that subject when
    it is a user or an organization. *)
Theorem default_save_location (subjects : list ConfigurationSubject)
        (st : SavedQueryForm.State) :
  (subject (values st) <> EmptyString ->
   subject (values (fst (configurationChanged subjects st)))
   = subject (values st))
  /\ (subject (values st) = EmptyString ->
      forall s0,
        find (fun s => truthy (subjectId s)) subjects = Some s0 ->
        subject (values (fst (configurationChanged subjects st))) = subjectId s0
        /\ savingToOrg (fst (configurationChanged subjects st))
           = match s0 with Org _ _ => true | _ => false end
        /\ (isOrgOrUser s0 = true ->
            saveTargetName (fst (configurationChanged subjects st))
            = configurationSubjectLabel s0 true)).
Proof.
  unfold configurationChanged; cbn [fst values subject subjectOptions]. split.
  - intros Hne. unfold truthy.
    destruct (String.eqb_spec (subject (values st)) ""); [contradiction|].
    reflexivity.
  - intros He s0 Hf. rewrite He, Hf. cbn [truthy String.eqb negb].
    destruct (find_first_id _ _ Hf) as [Hfirst _].
    split; [reflexivity|]. split.
    + unfold savingToOrg; cbn [values subject subjectOptions].
      rewrite Hfirst. destruct s0; reflexivity.
    + intros Hou. unfold saveTargetName; cbn [values subject subjectOptions].
      now rewrite (find_filter _ isOrgOrUser _ _ Hfirst Hou).
Qed.

(** A form opened without defaults receives a site, a user and an
    organization: it saves to the user. *)
Lemma default_save_location_witness :
  subject (values (fst (configurationChanged
                          [OtherSubject "Site" ""; User "u1" "alice";
                           Org "org1" "acme"]
                          (constructor None)))) = "u1"
  /\ savingToOrg (fst (configurationChanged
                         [OtherSubject "Site" ""; User "u1" "alice";
                          Org "org1" "acme"]
                         (constructor None))) = false
  /\ saveTargetName (fst (configurationChanged
                            [OtherSubject "Site" ""; User "u1" "alice";
                             Org "org1" "acme"]
                            (constructor None))) = Some "alice".
Proof.
  pose proof (proj2 (default_save_location
                       [OtherSubject "Site" ""; User "u1" "alice";
                        Org "org1" "acme"]
                       (constructor None))) as H.
  specialize (H ltac:(reflexivity) (User "u1" "alice")).
  specialize (H ltac:(reflexivity)).
  destruct H as (H1 & H2 & H3).
  specialize (H3 ltac:(reflexivity)).
  split; [exact H1|]. split; [exact H2|exact H3].
Defined.

(** What one event does to [isSubmitting] and [error]. *)
Lemma handle_submitting (e : Event) (st st1 : SavedQueryForm.State)
      (log1 : list string) :
  handle e st = Some (st1, log1) ->
  match e with
  | Submit => isSubmitting st1 = true /\ error st1 = error st
  | SubmitFailed err =>
      isSubmitting st1 = isSubmitting st /\ error st1 = Some err
  | _ => isSubmitting st1 = isSubmitting st /\ error st1 = error st
  end.
Proof.
  destruct e as [q|key t| | | |err|subjects]; simpl;
    try (intros H; inversion H; subst; split; reflexivity).
  - unfold handleQueryChange. cbv zeta.
    destruct (negb (sawUnsupportedNotifyQueryWarning st)
              && isUnsupportedNotifyQuery _);
      intros H; inversion H; subst; split; reflexivity.
  - unfold createInputChangeHandler. cbv zeta.
    destruct key, (type t =? "checkbox")%string; intros H; inversion H; subst;
      split; reflexivity.
Qed.

(** X23 -- Submitting is final.  No event handler resets [isSubmitting]:
    once a form is submitting, it is submitting after any sequence of
    events, its submit button stays disabled, and the Escape key does not
    cancel it. *)
Theorem submitting_is_final (events : list Event)
        (st st' : SavedQueryForm.State) (log : list string) :
  run events st = Some (st', log) ->
  isSubmitting st = true ->
  isSubmitting st' = true
  /\ submitDisabled st' = true
  /\ forall key, escapeCancels key st' = false.
Proof.
  intros Hrun Hsub.
  assert (isSubmitting st' = true) as Hfinal.
  { revert st st' log Hrun Hsub.
    induction events as [|e rest IH]; intros st st' log; simpl.
    - intros H; inversion H; subst. auto.
    - destruct (handle e st) as [[st1 log1]|] eqn:He; [|discriminate].
      destruct (run rest st1) as [[st2 log2]|] eqn:Hr; [|discriminate].
      intros H Hsub; inversion H; subst; clear H.
      apply (IH _ _ _ Hr).
      pose proof (handle_submitting _ _ _ _ He) as Hs.
      destruct e; destruct Hs as [Hs _]; congruence. }
  split; [exact Hfinal|]. split.
  - unfold submitDisabled. rewrite Hfinal. apply Bool.orb_true_r.
  - intros key. unfold escapeCancels. rewrite Hfinal. apply Bool.andb_false_r.
Qed.

(** A form is submitted, the submission fails, and the query is edited. *)
Lemma submitting_is_final_witness :
  run [SubmitFailed "network error"; QueryChange "foo"; InputBlur]
      (fst (handleSubmit (constructor None)))
  = Some (SavedQueryForm.mkState
            (mkFields "" "foo" "" false false false [] [])
            [] true false (Some "network error") false, [])
  /\ submitDisabled
       (SavedQueryForm.mkState
          (mkFields "" "foo" "" false false false [] [])
          [] true false (Some "network error") false) = true.
Proof.
  assert (run [SubmitFailed "network error"; QueryChange "foo"; InputBlur]
              (fst (handleSubmit (constructor None)))
          = Some (SavedQueryForm.mkState
                    (mkFields "" "foo" "" false false false [] [])
                    [] true false (Some "network error") false, [])) as Hrun
      by reflexivity.
  split; [exact Hrun|].
  pose proof (submitting_is_final _ _ _ _ Hrun) as H.
  specialize (H ltac:(reflexivity)).
  exact (proj1 (proj2 H)).
Defined.

(** X24 -- The error of a failed submission is never shown.  [render] shows
    the error when [error] is set and the form is not submitting.  In a
    form where this does not hold at first -- such is the form that the
    constructor makes -- and where a submission fails only after it was
    made, it holds after no sequence of events: [handleSubmit] sets
    [isSubmitting] before the failure sets [error], and nothing resets
    it. *)
Theorem submit_error_never_shown (events : list Event)
        (st st' : SavedQueryForm.State) (log : list string) :
  run events st = Some (st', log) ->
  error st = None \/ isSubmitting st = true ->
  failuresFollowSubmit (isSubmitting st) events = true ->
  errorShown st' = false.
Proof.
  revert st st' log. induction events as [|e rest IH]; intros st st' log; simpl.
  - intros H Hinv _; inversion H; subst. unfold errorShown.
    destruct Hinv as [-> | ->]; [reflexivity|]. now destruct (error st').
  - destruct (handle e st) as [[st1 log1]|] eqn:He; [|discriminate].
    destruct (run rest st1) as [[st2 log2]|] eqn:Hr; [|discriminate].
    intros H Hinv Hwf; inversion H; subst; clear H.
    pose proof (handle_submitting _ _ _ _ He) as Hs.
    apply (IH _ _ _ Hr).
    + destruct e; destruct Hs as [Hsub Herr];
        try (rewrite Hsub, Herr; exact Hinv).
      * right. exact Hsub.
      * right. rewrite Hsub.
        apply Bool.andb_true_iff in Hwf. now destruct Hwf.
    + destruct e; destruct Hs as [Hsub Herr];
        try (rewrite Hsub; exact Hwf).
      rewrite Hsub. apply Bool.andb_true_iff in Hwf. now destruct Hwf.
Qed.

(** A form opened without defaults is filled in and submitted, and the
    submission fails: the error is set, and not shown. *)
Lemma submit_error_never_shown_witness :
  run [QueryChange "foo"; Submit; SubmitFailed "network error"]
      (constructor None)
  = Some (SavedQueryForm.mkState
            (mkFields "" "foo" "" false false false [] [])
            [] true false (Some "network error") false, [])
  /\ errorShown
       (SavedQueryForm.mkState
          (mkFields "" "foo" "" false false false [] [])
          [] true false (Some "network error") false) = false.
Proof.
  assert (run [QueryChange "foo"; Submit; SubmitFailed "network error"]
              (constructor None)
          = Some (SavedQueryForm.mkState
                    (mkFields "" "foo" "" false false false [] [])
                    [] true false (Some "network error") false, [])) as Hrun
      by reflexivity.
  split; [exact Hrun|].
  pose proof (submit_error_never_shown _ _ _ _ Hrun) as H.
  specialize (H ltac:(left; reflexivity)).
  specialize (H ltac:(reflexivity)).
  exact H.
Defined.
